(** * MPoL Fourier layers

    A shallow embedding of [src/mpol/fourier.py]: the uniform Fourier layer
    [FourierCube] and the non-uniform layer [NuFFTNarrow], together with the
    part of the tensor engine they call.

    Conventions of the model.
    - Real scalars (Python floats, [torch.double]) live in a commutative ring
      [R], complex scalars ([torch.complex128]) in a field [C], and
      [toC : R -> C] is the promotion of a real to a complex.  Arithmetic is
      exact: rounding is outside the model.
    - A tensor of statically known rank is a nested [seq]; a tensor whose rank
      is only known at run time is a [tensor] (rank and data).
    - A method is a computation in the state-and-exception monad [Py.M] over
      the attributes of [self]. *)

Set Warnings "-notation-overridden,-ambiguous-paths,-deprecated".
From Stdlib Require Import String Lia.
From mathcomp Require Import ssreflect ssrfun ssrbool eqtype ssrnat seq div.
From mathcomp Require Import choice fintype bigop.
From mathcomp Require Import order ssralg ssrnum poly ssrint rat.

Set Implicit Arguments.
Unset Strict Implicit.
Unset Printing Implicit Defensive.

Import GRing.Theory.
Local Open Scope ring_scope.

(** ** Python run time: exceptions and stateful methods *)

Module Py.

Inductive exn : Type :=
  | AssertionError (msg : string)
  | AttributeError (name : string)
  | ValueError (msg : string)
  | IndexError (msg : string).

Definition result (A : Type) : Type := (exn + A)%type.

Section Methods.

Variable S : Type.

(** A method body: it reads and writes the attributes of [self] and either
    returns a value or raises; attribute writes made before a [raise] stay. *)
Definition M (A : Type) : Type := S -> result A * S.

Definition ret (A : Type) (a : A) : M A := fun self => (inr a, self).

Definition raise (A : Type) (e : exn) : M A := fun self => (inl e, self).

Definition bind (A B : Type) (m : M A) (k : A -> M B) : M B :=
  fun self =>
    match m self with
    | (inr a, self') => k a self'
    | (inl e, self') => (inl e, self')
    end.

(** [assert b, msg] *)
Definition assert (b : bool) (msg : string) : M unit :=
  if b then ret tt else raise unit (AssertionError msg).

(** [self.name], for an attribute that may not have been set yet *)
Definition getattr (A : Type) (name : string) (field : S -> option A) : M A :=
  fun self =>
    match field self with
    | Some a => (inr a, self)
    | None => (inl (AttributeError name), self)
    end.

(** [self.name = v] *)
Definition setattr (update : S -> S) : M unit :=
  fun self => (inr tt, update self).

(** a call into code that does not touch [self] *)
Definition call (A : Type) (r : result A) : M A := fun self => (r, self).

(** [obj.name] for a property of a class with [__getattr__] (every
    [nn.Module]): when the getter raises [AttributeError], the lookup falls
    back on [__getattr__], which raises [AttributeError] for [name]. *)
Definition property (A : Type) (name : string) (getter : M A) : M A :=
  fun self =>
    match getter self with
    | (inl (AttributeError _), self') => (inl (AttributeError name), self')
    | (r, self') => (r, self')
    end.

End Methods.

(** What a run raised, if anything. *)
Definition raised (S A : Type) (r : result A * S) : option exn :=
  if r.1 is inl e then Some e else None.

(** Truthiness of an optional object argument: [None] is falsy, an object
    that defines neither [__bool__] nor [__len__] is truthy. *)
Definition truthy_obj (A : Type) (o : option A) : bool :=
  if o is Some _ then true else false.

Definition is_None (A : Type) (o : option A) : bool :=
  if o is None then true else false.

(** Truthiness of an optional number ([None] and zero are falsy). *)
Definition truthy_num (Z : nmodType) (o : option Z) : bool :=
  if o is Some x then x != 0 else false.

End Py.

Notation "'let*' x ':=' m 'in' k" := (Py.bind m (fun x => k))
  (at level 200, x name, right associativity, only parsing).
Notation "m1 ';;' m2" := (Py.bind m1 (fun _ => m2))
  (at level 100, right associativity, only parsing).

(** The design's error taxonomy, read on the exceptions the code raises:
    every check of [fourier.py] is an [assert], told apart by its message. *)
Module Errors.

Definition msg_cube_3d : string := "cube must be 3D"%string.
Definition msg_coords_given : string :=
  "npix and cell_size must be empty if precomputed GridCoords are supplied."%string.
Definition msg_npix_given : string :=
  "GridCoords must be empty if npix and cell_size are supplied."%string.

Definition ShapeError (e : Py.exn) : bool :=
  if e is Py.AssertionError msg then String.eqb msg msg_cube_3d else false.

Definition ConfigurationError (e : Py.exn) : bool :=
  if e is Py.AssertionError msg
  then String.eqb msg msg_coords_given || String.eqb msg msg_npix_given
  else false.

End Errors.

(** ** The tensor engine *)

Module Torch.

Section Tensors.

Variable T : Type.

Fixpoint tensor_of (d : nat) : Type :=
  if d is d'.+1 then seq (tensor_of d') else T.

(** A tensor as a value passed around at run time: [dim] is [x.dim()]. *)
Record tensor : Type := Tensor { dim : nat; data : tensor_of dim }.

(** The data of a tensor already known to be 3-dimensional. *)
Definition cube3 (x : tensor) : seq (seq (seq T)) :=
  match x with
  | Tensor 3 c => c
  | _ => [::]
  end.

(** [x.shape == (c, h, w)] for nested data. *)
Definition has_shape2 (h w : nat) (m : seq (seq T)) : bool :=
  (size m == h) && all (fun r => size r == w) m.

Definition has_shape3 (c h w : nat) (x : seq (seq (seq T))) : bool :=
  (size x == c) && all (has_shape2 h w) x.

Definition has_shape4 (b c h w : nat) (x : seq (seq (seq (seq T)))) : bool :=
  (size x == b) && all (has_shape3 c h w) x.

(** [torch.fft.fftshift] along one axis: a roll by half the length, so that
    index [0] lands on index [n %/ 2]. *)
Definition fftshift1 (A : Type) (s : seq A) : seq A :=
  rot (size s - size s %/ 2) s.

(** [torch.fft.fftshift(x, dim=(1, 2))] *)
Definition fftshift (x : seq (seq (seq T))) : seq (seq (seq T)) :=
  [seq fftshift1 [seq fftshift1 r | r <- m] | m <- x].

(** [x.unsqueeze(0)] *)
Definition unsqueeze0 (A : Type) (x : A) : seq A := [:: x].

(** [x[0]] *)
Definition getitem0 (A : Type) (x : seq A) : Py.result A :=
  if x is a :: _ then inr a
  else inl (Py.IndexError "index 0 is out of bounds for dimension 0 with size 0").

End Tensors.

(** The [h] by [w] matrix with entries [f i j]. *)
Definition tabulate2 (A : Type) (f : nat -> nat -> A) (h w : nat) :
  seq (seq A) :=
  mkseq (fun i => mkseq (f i) w) h.

Definition map2 (A B : Type) (f : A -> B) (m : seq (seq A)) : seq (seq B) :=
  [seq [seq f a | a <- r] | r <- m].

Definition map3 (A B : Type) (f : A -> B) (x : seq (seq (seq A))) :
  seq (seq (seq B)) :=
  [seq map2 f m | m <- x].

(** [x + y] for operands of the same shape *)
Definition add1 (V : nmodType) (r s : seq V) : seq V :=
  [seq p.1 + p.2 | p <- zip r s].

Definition add2 (V : nmodType) (m n : seq (seq V)) : seq (seq V) :=
  [seq add1 p.1 p.2 | p <- zip m n].

Definition add3 (V : nmodType) (x y : seq (seq (seq V))) :
  seq (seq (seq V)) :=
  [seq add2 p.1 p.2 | p <- zip x y].

(** [torch.tensor([row0, row1, ...])] from equally long rows. *)
Definition tensor_of_rows (A : Type) (rows : seq (seq A)) :
  Py.result (seq (seq A)) :=
  if all (fun r => size r == size (head [::] rows)) rows then inr rows
  else inl (Py.ValueError "expected sequence of equal lengths").

Section Fourier.

Variable C : fieldType.

(** [tw n] stands for [exp(-2 pi i / n)], the kernel root of a transform of
    length [n]. *)
Variable tw : nat -> C.

Definition sumC (s : seq C) : C := foldr +%R 0 s.

(** [c * x] for a scalar [c] *)
Definition scale2 (c : C) (m : seq (seq C)) : seq (seq C) := map2 ( *%R c) m.
Definition scale3 (c : C) (x : seq (seq (seq C))) : seq (seq (seq C)) :=
  map3 ( *%R c) x.

(** A linear transform with kernel [K], along the last axis of a matrix:
    out[r][k] = sum_j m[r][j] * K j k. *)
Definition mulv (K : nat -> nat -> C) (x : seq C) : seq C :=
  mkseq (fun k => sumC (mkseq (fun j => nth 0 x j * K j k) (size x))) (size x).

Definition along_axis2 (K : nat -> nat -> nat -> C) (m : seq (seq C)) :
  seq (seq C) :=
  [seq mulv (K (size r)) r | r <- m].

(** The same along the first axis: out[k][c] = sum_j m[j][c] * K j k. *)
Definition along_axis1 (K : nat -> nat -> nat -> C) (m : seq (seq C)) :
  seq (seq C) :=
  let h := size m in
  let w := size (head [::] m) in
  mkseq (fun k =>
    mkseq (fun c =>
      sumC (mkseq (fun j => nth 0 (nth [::] m j) c * K h j k) h)) w) h.

(** Kernels of the forward transform and of the inverse one (the inverse
    carries the factor [1/n], torch's default normalisation). *)
Definition fft_kernel (n j k : nat) : C := tw n ^+ (j * k).
Definition ifft_kernel (n j k : nat) : C := n%:R^-1 * (tw n)^-1 ^+ (j * k).

(** [torch.fft.fftn(x, dim=(1, 2))] on complex data: one-dimensional
    transforms along axis 1, then along axis 2, channel by channel. *)
Definition fftn (x : seq (seq (seq C))) : seq (seq (seq C)) :=
  [seq along_axis2 fft_kernel (along_axis1 fft_kernel m) | m <- x].

(** [torch.fft.ifftn(x, dim=(1, 2))] *)
Definition ifftn (x : seq (seq (seq C))) : seq (seq (seq C)) :=
  [seq along_axis2 ifft_kernel (along_axis1 ifft_kernel m) | m <- x].

End Fourier.

End Torch.

(** ** Grid geometry *)

Module Coordinates.

Section GridCoords.

Variable R : Type.

(** Modelled from the spec: [mpol/coordinates.py] is not part of the sources
    at hand.  The record keeps the attributes of a [GridCoords] object that
    the Fourier layers read: the pixel width [cell_size] in arcseconds, the
    number of pixels per side [npix] and the pixel angular size [dl] in
    radians. *)
Record GridCoords : Type :=
  mkGridCoords { cell_size : R; npix : nat; dl : R }.

End GridCoords.

End Coordinates.

Module Utils.

Section Layouts.

Variable T : Type.

(** Modelled from the spec: [mpol/utils.py] is not part of the sources at
    hand.  The packed-to-ground conversion re-centers zero frequency to the
    middle of the two spatial axes, which is [fftshift] over axes 1 and 2. *)
Definition packed_cube_to_ground_cube (packed_cube : seq (seq (seq T))) :
  seq (seq (seq T)) :=
  Torch.fftshift packed_cube.

End Layouts.

End Utils.

(** ** [class FourierCube(nn.Module)] *)

Module FourierCube.

Import Coordinates.

Section Layer.

Variables (R : comNzRingType) (C : fieldType).
Variable toC : R -> C.
Variable tw : nat -> C.

(** [torch.abs] and [torch.angle] on one complex number *)
Variables cabs cangle : C -> R.

(** The constructor [GridCoords(cell_size=..., npix=...)] *)
Variable GridCoords_init : option R -> option int -> Py.result (GridCoords R).

(** The attributes of a layer; an attribute that was never assigned is
    [None]. *)
Record t : Type :=
  Layer { coords : option (GridCoords R); vis : option (seq (seq (seq C))) }.

Definition empty : t := Layer None None.

Definition set_coords (g : option (GridCoords R)) (self : t) : t :=
  Layer g (vis self).

Definition set_vis (v : seq (seq (seq C))) (self : t) : t :=
  Layer (coords self) (Some v).

Definition __init__ (cell_size0 : option R) (npix0 : option int)
    (coords0 : option (GridCoords R)) : Py.M t unit :=
  if Py.truthy_obj coords0 then
    Py.assert (Py.is_None npix0 && Py.is_None cell_size0)
      Errors.msg_coords_given ;;
    Py.setattr (set_coords coords0)
  else if Py.truthy_num npix0 || Py.truthy_num cell_size0 then
    Py.assert (Py.is_None coords0) Errors.msg_npix_given ;;
    let* g := Py.call (GridCoords_init cell_size0 npix0) in
    Py.setattr (set_coords (Some g))
  else Py.ret tt.

(** [FourierCube(cell_size, npix, coords)]: the new object, or the exception
    that escaped [__init__]. *)
Definition new (cell_size0 : option R) (npix0 : option int)
    (coords0 : option (GridCoords R)) : Py.result t :=
  match __init__ cell_size0 npix0 coords0 empty with
  | (inr _, self) => inr self
  | (inl e, _) => inl e
  end.

Definition forward (cube : Torch.tensor R) : Py.M t (seq (seq (seq C))) :=
  Py.assert (Torch.dim cube == 3%N) Errors.msg_cube_3d ;;
  let* g := Py.getattr "coords" coords in
  let v := Torch.scale3 (toC (cell_size g ^+ 2))
             (Torch.fftn tw (Torch.map3 toC (Torch.cube3 cube))) in
  Py.setattr (set_vis v) ;;
  Py.getattr "vis" vis.

Definition ground_vis : Py.M t (seq (seq (seq C))) :=
  Py.property "ground_vis"
    (let* v := Py.getattr "vis" vis in
     Py.ret (Utils.packed_cube_to_ground_cube v)).

Definition ground_amp : Py.M t (seq (seq (seq R))) :=
  Py.property "ground_amp"
    (let* gv := ground_vis in
     Py.ret (Torch.map3 cabs gv)).

Definition ground_phase : Py.M t (seq (seq (seq R))) :=
  Py.property "ground_phase"
    (let* gv := ground_vis in
     Py.ret (Torch.map3 cangle gv)).

End Layer.

End FourierCube.

(** ** [class NuFFTNarrow(nn.Module)] *)

Module NuFFTNarrow.

Import Coordinates.

Section Layer.

Variables (R : comNzRingType) (C : fieldType).
Variable toC : R -> C.

(** [np.pi] *)
Variable pi : R.

Variable GridCoords_init : option R -> option int -> Py.result (GridCoords R).

(** The non-uniform FFT primitive: [torchkbnufft.KbNufft(im_size)] applied
    to an image of shape [batch, nchan, npix, npix] and a trajectory of shape
    [2, N]. *)
Variable KbNufft :
  nat * nat -> seq (seq (seq (seq C))) -> seq (seq R) -> seq (seq (seq C)).

Record t : Type :=
  Layer {
    coords : option (GridCoords R);
    nufft_ob : option (nat * nat);
    k_traj : option (seq (seq R))
  }.

Definition empty : t := Layer None None None.

Definition set_coords (g : option (GridCoords R)) (self : t) : t :=
  Layer g (nufft_ob self) (k_traj self).

Definition set_nufft_ob (im_size : nat * nat) (self : t) : t :=
  Layer (coords self) (Some im_size) (k_traj self).

Definition set_k_traj (kt : seq (seq R)) (self : t) : t :=
  Layer (coords self) (nufft_ob self) (Some kt).

(** What the layer relies on from the primitive: for an image of shape
    [batch, nchan, h, w], an object built for [im_size = (h, w)] and a
    trajectory of shape [2, N], the output has shape [batch, nchan, N]. *)
Definition KbNufft_contract : Prop :=
  forall (b c h w N : nat) image om,
    Torch.has_shape4 b c h w image -> Torch.has_shape2 2 N om ->
    Torch.has_shape3 b c N (KbNufft (h, w) image om).

(** What [__init__] leaves behind when it returns: the grid, and a
    primitive built for the image size of the grid. *)
Definition constructed (g : GridCoords R) (self : t) : Prop :=
  coords self = Some g /\ nufft_ob self = Some (npix g, npix g).

Definition _klambda_to_radpix (klambda : seq R) : Py.M t (seq R) :=
  let u_lam := [seq k * 1000%:R | k <- klambda] in
  let u_rad_per_rad := [seq u * 2%:R * pi | u <- u_lam] in
  let* g := Py.getattr "coords" coords in
  let u_rad_per_pix := [seq u * dl g | u <- u_rad_per_rad] in
  Py.ret u_rad_per_pix.

Definition _assemble_ktraj (uu vv : seq R) : Py.M t (seq (seq R)) :=
  let* uu_radpix := _klambda_to_radpix uu in
  let* vv_radpix := _klambda_to_radpix vv in
  Py.call (Torch.tensor_of_rows [:: vv_radpix; uu_radpix]).

Definition __init__ (cell_size0 : option R) (npix0 : option int)
    (coords0 : option (GridCoords R)) (uu vv : option (seq R)) :
    Py.M t unit :=
  (if Py.truthy_obj coords0 then
     Py.assert (Py.is_None npix0 && Py.is_None cell_size0)
       Errors.msg_coords_given ;;
     Py.setattr (set_coords coords0)
   else if Py.truthy_num npix0 || Py.truthy_num cell_size0 then
     Py.assert (Py.is_None coords0) Errors.msg_npix_given ;;
     let* g := Py.call (GridCoords_init cell_size0 npix0) in
     Py.setattr (set_coords (Some g))
   else Py.ret tt) ;;
  let* g := Py.getattr "coords" coords in
  Py.setattr (set_nufft_ob (npix g, npix g)) ;;
  match uu, vv with
  | Some u, Some v =>
      let* kt := _assemble_ktraj u v in
      Py.setattr (set_k_traj kt)
  | _, _ => Py.ret tt
  end.

Definition new (cell_size0 : option R) (npix0 : option int)
    (coords0 : option (GridCoords R)) (uu vv : option (seq R)) :
    Py.result t :=
  match __init__ cell_size0 npix0 coords0 uu vv empty with
  | (inr _, self) => inr self
  | (inl e, _) => inl e
  end.

(** The rank of [cube] is not checked by the method; the embedding takes a
    3-dimensional cube. *)
Definition forward (cube : seq (seq (seq R))) (uu vv : option (seq R)) :
    Py.M t (seq (seq C)) :=
  let* ktraj :=
    match uu, vv with
    | Some u, Some v => _assemble_ktraj u v
    | _, _ => Py.getattr "k_traj" k_traj
    end in
  let shifted := Torch.fftshift cube in
  let complexed := Torch.map3 toC shifted in
  let expanded := Torch.unsqueeze0 complexed in
  let* g := Py.getattr "coords" coords in
  let* ob := Py.getattr "nufft_ob" nufft_ob in
  let output :=
    Torch.scale3 (toC (cell_size g ^+ 2)) (KbNufft ob expanded ktraj) in
  Py.call (Torch.getitem0 output).

End Layer.

End NuFFTNarrow.

(** ** A concrete engine

    Exact rational arithmetic, on which the definitions above run.  The
    rationals hold the kernel roots of the transforms of length 1 and 2
    ([exp(-2 pi i / 2) = -1]), so cubes with at most two pixels per side are
    transformed exactly. *)

Module RatEngine.

Import Coordinates.

Definition toC : rat -> rat := idfun.

Definition tw (n : nat) : rat := if n == 2%N then -1 else 1.

Definition pi : rat := 22%:R / 7%:R.

Definition cabs (z : rat) : rat := `|z|.

Definition cangle (z : rat) : rat := if z < 0 then pi else 0.

(** One arcsecond in the angular unit of the engine (kept coarse: the
    rationals of the library compute in unary). *)
Definition arcsec : rat := 1 / 100%:R.

Definition GridCoords_init (cell_size0 : option rat) (npix0 : option int) :
  Py.result (GridCoords rat) :=
  match cell_size0, npix0 with
  | Some c, Some (Posz n) =>
      if (0 < c) && (0 < n)%N
      then inr (mkGridCoords c n (c * arcsec))
      else inl (Py.AssertionError "cell_size and npix must be positive")
  | _, _ => inl (Py.AssertionError "cell_size and npix must be positive")
  end.

(** A stand-in for the non-uniform primitive with its shape contract: each
    of the [N] samples of a channel is the channel's zero-frequency value. *)
Definition KbNufft (im_size : nat * nat) (image : seq (seq (seq (seq rat))))
    (om : seq (seq rat)) : seq (seq (seq rat)) :=
  [seq [seq nseq (size (head [::] om)) (Torch.sumC (flatten ch)) | ch <- b]
  | b <- image].

Definition grid2 : GridCoords rat := mkGridCoords (1 / 2%:R) 2 (7%:R / 44%:R).

Definition cube2 : seq (seq (seq rat)) :=
  [:: [:: [:: 1; 2%:R]; [:: 3%:R; 4%:R]]].

Definition uu2 : seq rat := [:: 1 / 1000%:R; 1 / 500%:R; 0].
Definition vv2 : seq rat := [:: 0; 1 / 1000%:R; -1 / 1000%:R].

Definition cube2b : seq (seq (seq rat)) :=
  [:: [:: [:: 0; 1]; [:: -1; 2%:R]]].

Definition fourier_layer : FourierCube.t rat rat :=
  FourierCube.Layer (Some grid2) None.

Definition nufft_layer : NuFFTNarrow.t rat :=
  NuFFTNarrow.Layer (Some grid2) (Some (2%N, 2%N)) (Some [:: vv2; uu2]).

End RatEngine.


(** ** The words of the design, as definitions *)

Module Spec.

Import Coordinates.

Section Words.

Variables (R : comNzRingType) (C : fieldType).
Variable toC : R -> C.
Variable tw : nat -> C.
Variable pi : R.
Variable KbNufft :
  nat * nat -> seq (seq (seq (seq C))) -> seq (seq R) -> seq (seq (seq C)).

(** The two-dimensional discrete Fourier transform of one channel, in packed
    layout (zero frequency at index [0], [0]):
    X[k1][k2] = sum_n1 sum_n2 x[n1][n2] * w_h^(n1 k1) * w_w^(n2 k2). *)
Definition dft2 (m : seq (seq C)) : seq (seq C) :=
  let h := size m in
  let w := size (head [::] m) in
  Torch.tabulate2 (fun k1 k2 =>
    \sum_(n1 < h) \sum_(n2 < w)
      nth 0 (nth [::] m n1) n2 * (tw h ^+ (n1 * k1) * tw w ^+ (n2 * k2)))
    h w.

(** The inverse of the uniform layer: undo the [cell_size ** 2] factor, then
    apply the inverse discrete Fourier transform. *)
Definition inverse (g : GridCoords R) (vis : seq (seq (seq C))) :
  seq (seq (seq C)) :=
  Torch.ifftn tw (Torch.scale3 (toC (cell_size g ^+ 2))^-1 vis).

(** Kilolambda to radians per pixel: times 1000, times [2 pi], times the
    pixel angular size. *)
Definition radpix (g : GridCoords R) (klambda : R) : R :=
  klambda * 1000%:R * (2%:R * pi) * dl g.

(** The trajectory of the samples [(uu, vv)]: the row of [v], then the row
    of [u]. *)
Definition ktraj_vu (g : GridCoords R) (uu vv : seq R) : seq (seq R) :=
  [:: [seq radpix g v | v <- vv]; [seq radpix g u | u <- uu]].

(** The non-uniform transform of a cube at a trajectory: shift, promote to
    complex, add the batch dimension, evaluate the primitive, scale by
    [cell_size ** 2], drop the batch dimension. *)
Definition nufft_samples (g : GridCoords R) (kt : seq (seq R))
    (cube : seq (seq (seq R))) : Py.result (seq (seq C)) :=
  let shifted := Torch.fftshift cube in
  let complexed := Torch.map3 toC shifted in
  let batched := [:: complexed] in
  let samples := KbNufft (npix g, npix g) batched kt in
  let scaled := Torch.scale3 (toC (cell_size g ^+ 2)) samples in
  Torch.getitem0 scaled.

End Words.

End Spec.

(** * Properties *)

(** ** The tensor engine *)

Module TorchFacts.

Import Torch.

(** Linear arithmetic on [nat] stated with the boolean order. *)
Ltac nat_lia :=
  try apply/eqP; rewrite -?(rwP ltP) -?(rwP leP) -?(rwP eqP);
  repeat match goal with
  | H : is_true (_ < _)%N |- _ => move/ltP: H
  | H : is_true (_ <= _)%N |- _ => move/leP: H
  end;
  rewrite -?plusE -?minusE -?multE; lia.

Section Shapes.

Variable T : Type.
Implicit Types (f g : nat -> nat -> T) (m : seq (seq T)).

Lemma nth_fftshift1 (A : Type) (x0 : A) (s : seq A) i :
  (i < size s)%N ->
  nth x0 (fftshift1 s) ((i + size s %/ 2) %% size s) = nth x0 s i.
Proof.
rewrite /fftshift1 /rot nth_cat size_drop.
move: (leq_div (size s) 2); set n := size s; set h := (n %/ 2)%N => hn lt_i.
rewrite subKn //; case: (ltnP (i + h) n) => [lt|ge].
  rewrite modn_small // ltnNge leq_addl /= addnK nth_take //.
  by nat_lia.
have -> : ((i + h) %% n = i + h - n)%N.
  by rewrite -{1}(subnK ge) modnDr modn_small //; nat_lia.
have -> : (i + h - n < h)%N by nat_lia.
by rewrite nth_drop; congr (nth _ _ _); nat_lia.
Qed.

Lemma eq_in_mkseq (A : Type) (f g : nat -> A) (n : nat) :
  (forall i, (i < n)%N -> f i = g i) -> mkseq f n = mkseq g n.
Proof.
move=> fg; apply/eq_in_map => i.
by rewrite mem_iota add0n => /andP [_ /fg].
Qed.

Lemma nth_tabulate2 (x0 : T) f h w i j :
  (i < h)%N -> (j < w)%N -> nth x0 (nth [::] (tabulate2 f h w) i) j = f i j.
Proof. by move=> ih jw; rewrite /tabulate2 !nth_mkseq. Qed.

Lemma eq_tabulate2 f g h w :
  (forall i j, (i < h)%N -> (j < w)%N -> f i j = g i j) ->
  tabulate2 f h w = tabulate2 g h w.
Proof.
by move=> fg; apply: eq_in_mkseq => i ih; apply: eq_in_mkseq => j; apply: fg.
Qed.

Lemma tabulate2_shape f h w : has_shape2 h w (tabulate2 f h w).
Proof.
rewrite /has_shape2 /tabulate2 size_mkseq eqxx all_map /=.
by apply/allP => i _ /=; rewrite size_mkseq.
Qed.

Lemma shape2_tabulate (x0 : T) m h w :
  has_shape2 h w m ->
  m = tabulate2 (fun i j => nth x0 (nth [::] m i) j) h w.
Proof.
case/andP => /eqP <- /(all_nthP [::]) rows.
apply: (@eq_from_nth _ [::]); first by rewrite size_mkseq.
move=> i ih; rewrite nth_mkseq //.
by rewrite -(eqP (rows i ih)) mkseq_nth.
Qed.

Lemma has_shape2_map2 (A : Type) (F : A -> T) h w (m : seq (seq A)) :
  has_shape2 h w (map2 F m) = has_shape2 h w m.
Proof.
rewrite /has_shape2 /map2 size_map all_map; congr (_ && _).
by apply: eq_all => r /=; rewrite size_map.
Qed.

Lemma has_shape3_map3 (A : Type) (F : A -> T) c h w (x : seq (seq (seq A))) :
  has_shape3 c h w (map3 F x) = has_shape3 c h w x.
Proof.
rewrite /has_shape3 /map3 size_map all_map; congr (_ && _).
by apply: eq_all => m /=; rewrite has_shape2_map2.
Qed.

Lemma all_rot_seq (A : Type) (a : pred A) n (s : seq A) :
  all a (rot n s) = all a s.
Proof. by rewrite /rot all_cat andbC -all_cat cat_take_drop. Qed.

Lemma has_shape3_fftshift c h w (x : seq (seq (seq T))) :
  has_shape3 c h w (fftshift x) = has_shape3 c h w x.
Proof.
rewrite /has_shape3 /fftshift size_map all_map; congr (_ && _).
apply: eq_all => m /=; rewrite /has_shape2 /fftshift1 size_rot size_map.
rewrite all_rot_seq all_map; congr (_ && _).
by apply: eq_all => r /=; rewrite size_rot.
Qed.

(** Entry [(i, j)] of channel [ch] of a packed cube is entry
    [(i + h %/ 2 mod h, j + w %/ 2 mod w)] of the shifted cube. *)
Lemma nth_fftshift (x0 : T) c h w (x : seq (seq (seq T))) ch i j :
  has_shape3 c h w x -> (ch < c)%N -> (i < h)%N -> (j < w)%N ->
  nth x0 (nth [::] (nth [::] (fftshift x) ch) ((i + h %/ 2) %% h))
    ((j + w %/ 2) %% w)
  = nth x0 (nth [::] (nth [::] x ch) i) j.
Proof.
case/andP => /eqP <- /(all_nthP [::]) chans lt_ch lt_i lt_j.
have /andP [/eqP szm /(all_nthP [::]) rows] := chans ch lt_ch.
rewrite /fftshift (nth_map [::]) //.
have szm' : size [seq fftshift1 r | r <- nth [::] x ch] = h by rewrite size_map.
rewrite -{1 2}szm' nth_fftshift1 ?szm' // (nth_map [::]) ?szm //.
have szr : size (nth [::] (nth [::] x ch) i) = w.
  by apply/eqP/rows; rewrite szm.
by rewrite -{1 2}szr nth_fftshift1 ?szr.
Qed.

Lemma size_head_tabulate2 f h w :
  (0 < h)%N -> size (head [::] (tabulate2 f h w)) = w.
Proof. by case: h => // h _; rewrite /tabulate2 /mkseq /= size_map size_iota. Qed.

End Shapes.

Section Transforms.

Variable C : fieldType.
Implicit Types (K : nat -> nat -> nat -> C) (f : nat -> nat -> C).

Lemma sumC_mkseq (F : nat -> C) n : sumC (mkseq F n) = \sum_(i < n) F i.
Proof. by rewrite /sumC foldrE big_map -[X in iota 0 X]subn0 big_mkord. Qed.

Lemma along_axis1_tabulate K f h w :
  along_axis1 K (tabulate2 f h w) =
  tabulate2 (fun k c => \sum_(j < h) f j c * K h j k) h w.
Proof.
rewrite /along_axis1 [size (tabulate2 _ _ _)]size_mkseq.
case: h => [//|h]; rewrite size_head_tabulate2 //.
apply: eq_in_mkseq => k kh; apply: eq_in_mkseq => c cw; rewrite sumC_mkseq.
by apply: eq_bigr => j _; rewrite (nth_tabulate2 0).
Qed.

Lemma along_axis2_tabulate K f h w :
  along_axis2 K (tabulate2 f h w) =
  tabulate2 (fun r k => \sum_(j < w) f r j * K w j k) h w.
Proof.
rewrite /along_axis2 /tabulate2 /mkseq -map_comp; apply/eq_in_map => r _ /=.
rewrite /mulv size_map size_iota; apply: eq_in_mkseq => k kw.
rewrite sumC_mkseq; apply: eq_bigr => j _.
by rewrite -/(mkseq _ _) nth_mkseq.
Qed.

(** Orthogonality of the powers of a primitive root. *)
Lemma root_orthogonal n (z : C) (j a : 'I_n) :
  n.-primitive_root z ->
  \sum_(k < n) z ^+ (j * k) * z^-1 ^+ (k * a) = if j == a then n%:R else 0.
Proof.
move=> prim; have zn := prim_expr_order prim.
have z0 : z != 0.
  by rewrite (prim_root_eq0 prim) -lt0n (prim_order_gt0 prim).
pose y := z ^+ j * z^-1 ^+ a.
have -> : \sum_(k < n) z ^+ (j * k) * z^-1 ^+ (k * a) = \sum_(k < n) y ^+ k.
  by apply: eq_bigr => k _; rewrite /y exprMn -!exprM [(k * a)%N]mulnC.
case: eqP => [eq_ja|/eqP ne].
  have -> : y = 1 by rewrite /y eq_ja -exprMn divff // expr1n.
  under eq_bigr => k _ do rewrite expr1n.
  by rewrite sumr_const card_ord.
have y1 : y != 1.
  rewrite /y exprVn -(inj_eq (mulIf (expf_neq0 a z0))) mulfVK ?expf_neq0 //.
  by rewrite mul1r (eq_prim_root_expr prim) !modn_small.
have yn : y ^+ n = 1.
  by rewrite /y exprMn -!exprM ![(_ * n)%N]mulnC !exprM exprVn zn invr1 !expr1n mulr1.
have /eqP : (y - 1) * \sum_(k < n) y ^+ k = 0 by rewrite -subrX1 yn subrr.
by rewrite mulf_eq0 subr_eq0 (negPf y1) => /eqP.
Qed.

(** A transform of length [n] followed by the inverse one. *)
Lemma ifft_fft_vector n (z : C) (g : nat -> C) (a : nat) :
  n.-primitive_root z -> (a < n)%N ->
  \sum_(k < n) (\sum_(j < n) g j * z ^+ (j * k)) * (n%:R^-1 * z^-1 ^+ (k * a))
  = g a.
Proof.
move=> prim an.
have n0 : n%:R != 0 :> C := prim_root_natf_neq0 prim.
under eq_bigr => k _.
  rewrite big_distrl /=.
  under eq_bigr => j _ do
    rewrite -mulrA [z ^+ _ * _]mulrCA [g j * _]mulrCA.
  over.
rewrite exchange_big /=.
under eq_bigr => j _ do rewrite -big_distrr -big_distrr /=.
under eq_bigr => j _ do rewrite (root_orthogonal j (Ordinal an) prim).
rewrite (bigD1 (Ordinal an)) //= eqxx mulrCA mulVf // mulr1 big1 ?addr0 //.
by move=> j /negPf ->; rewrite !mulr0.
Qed.

End Transforms.

Section Channels.

Variable C : fieldType.
Variable tw : nat -> C.
Implicit Types (m : seq (seq C)) (x : seq (seq (seq C))).

Lemma transform_shape (K K' : nat -> nat -> nat -> C) h w m :
  has_shape2 h w m -> has_shape2 h w (along_axis2 K' (along_axis1 K m)).
Proof.
move=> /(shape2_tabulate 0) ->.
by rewrite along_axis1_tabulate along_axis2_tabulate tabulate2_shape.
Qed.

(** The two passes of [fftn] compute the double sum of the definition. *)
Lemma fft_channel_dft2 h w m :
  has_shape2 h w m ->
  along_axis2 (fft_kernel tw) (along_axis1 (fft_kernel tw) m) = Spec.dft2 tw m.
Proof.
move=> shape; pose f i j := nth 0 (nth [::] m i) j.
have mE : m = tabulate2 f h w := shape2_tabulate 0 shape.
have hE : size m = h by case/andP: shape => /eqP.
rewrite /Spec.dft2 hE -/f [in LHS]mE along_axis1_tabulate along_axis2_tabulate.
case: h => [//|h] in shape mE hE *.
have -> : size (head [::] m) = w by rewrite mE size_head_tabulate2.
apply: eq_tabulate2 => k1 k2 _ _.
under eq_bigr => j _ do rewrite big_distrl /=.
rewrite exchange_big /=; apply: eq_bigr => n1 _; apply: eq_bigr => n2 _.
by rewrite /fft_kernel mulrA.
Qed.

(** One channel: the two forward passes followed by the two inverse ones. *)
Lemma ifft_fft_channel n m :
  n.-primitive_root (tw n) -> has_shape2 n n m ->
  along_axis2 (ifft_kernel tw) (along_axis1 (ifft_kernel tw)
    (along_axis2 (fft_kernel tw) (along_axis1 (fft_kernel tw) m))) = m.
Proof.
move=> prim shape; pose f i j := nth 0 (nth [::] m i) j.
have mE : m = tabulate2 f n n := shape2_tabulate 0 shape.
rewrite mE !(along_axis1_tabulate, along_axis2_tabulate).
apply: eq_tabulate2 => a b an bn.
have rowE (j : nat) :
    \sum_(i < n) (\sum_(l < n) (\sum_(p < n) f p l * fft_kernel tw n p i)
                               * fft_kernel tw n l j) * ifft_kernel tw n i a
    = \sum_(l < n) f a l * fft_kernel tw n l j.
  under eq_bigr => i _ do rewrite big_distrl /=.
  rewrite exchange_big /=; apply: eq_bigr => l _.
  under eq_bigr => i _ do rewrite mulrAC.
  by rewrite -big_distrl /= (ifft_fft_vector (f^~ l) prim an).
under eq_bigr => j _ do rewrite rowE.
exact: (ifft_fft_vector (f a) prim bn).
Qed.

Lemma fftn_dft2 c h w x :
  has_shape3 c h w x -> fftn tw x = [seq Spec.dft2 tw m | m <- x].
Proof.
case/andP => _ /allP chans; apply/eq_in_map => m /chans.
exact: fft_channel_dft2.
Qed.

Lemma fftn_shape c h w x : has_shape3 c h w x -> has_shape3 c h w (fftn tw x).
Proof.
rewrite /has_shape3 /fftn size_map all_map => /andP [-> /allP chans] /=.
by apply/allP => m /chans /=; apply: transform_shape.
Qed.

Lemma ifftn_fftn c n x :
  n.-primitive_root (tw n) -> has_shape3 c n n x -> ifftn tw (fftn tw x) = x.
Proof.
move=> prim /andP [_ /allP chans]; rewrite /ifftn /fftn -map_comp.
by apply: map_id_in => m /chans /=; apply: ifft_fft_channel.
Qed.

Lemma map3_comp (A B D : Type) (F : B -> D) (G : A -> B) (y : seq (seq (seq A))) :
  map3 F (map3 G y) = map3 (F \o G) y.
Proof.
rewrite /map3 /map2 -map_comp; apply: eq_map => m /=.
by rewrite -map_comp; apply: eq_map => r /=; rewrite -map_comp.
Qed.

Lemma map3_id (A : Type) (F : A -> A) (y : seq (seq (seq A))) :
  F =1 id -> map3 F y = y.
Proof.
move=> Fid; rewrite /map3 /map2 -[RHS]map_id; apply: eq_map => m /=.
rewrite -[RHS]map_id; apply: eq_map => r /=.
by rewrite -[RHS]map_id; apply: eq_map.
Qed.

Lemma scale3K (c : C) x : c != 0 -> scale3 c^-1 (scale3 c x) = x.
Proof.
by move=> c0; rewrite /scale3 map3_comp map3_id // => z /=; rewrite mulKf.
Qed.

End Channels.

End TorchFacts.

(** ** The uniform layer *)

Module FourierCubeSpec.

Import Coordinates Torch TorchFacts FourierCube.

Section Facts.

Variables (R : comNzRingType) (C : fieldType).
Variable toC : R -> C.
Variable tw : nat -> C.
Variables cabs cangle : C -> R.
Variable GridCoords_init : option R -> option int -> Py.result (GridCoords R).

Local Notation layer := (FourierCube.t R C).
Local Notation forward := (FourierCube.forward toC tw).
Local Notation new := (FourierCube.new C GridCoords_init).
Local Notation visibilities g x :=
  (scale3 (toC (cell_size g ^+ 2)) (fftn tw (map3 toC x))).

Implicit Types (self : layer) (cube : tensor R) (g : GridCoords R).

(** [forward], case by case. *)
Lemma forwardE cube self :
  forward cube self =
  if dim cube == 3%N then
    if coords self is Some g then
      (inr (visibilities g (cube3 cube)),
       set_vis (visibilities g (cube3 cube)) self)
    else (inl (Py.AttributeError "coords"), self)
  else (inl (Py.AssertionError Errors.msg_cube_3d), self).
Proof.
rewrite /FourierCube.forward /Py.bind /Py.assert.
case: (dim cube == 3%N) => //=.
by rewrite /Py.getattr; case: (coords self).
Qed.

(** C5: [forward] raises the shape error (the failed assertion
    "cube must be 3D") exactly on the inputs whose number of dimensions is
    not 3. *)
Theorem forward_ShapeError cube self :
  (if Py.raised (forward cube self) is Some e then Errors.ShapeError e
   else false) = (dim cube != 3%N).
Proof.
rewrite forwardE; case: (dim cube == 3%N) => //=.
by case: (coords self).
Qed.

(** C9: [forward] leaves [coords] (its [cell_size] and [npix] included) as
    it was; the state after the call is the state before it, or the state
    before it with [vis] set to the returned cube. *)
Theorem forward_frame cube self :
  coords (forward cube self).2 = coords self /\
  match (forward cube self).1 with
  | inr v => (forward cube self).2 = set_vis v self
  | inl _ => (forward cube self).2 = self
  end.
Proof.
rewrite forwardE; case: (dim cube == 3%N) => //=.
by case E: (coords self) => [g|].
Qed.

(** C1: on a real cube of shape [(nchan, n, n)], [forward] returns (and
    stores) a complex cube of the same shape: channel by channel,
    [cell_size ** 2] times the two-dimensional discrete Fourier transform
    of the channel, in packed layout. *)
Theorem forward_scaled_dft2 self g nchan n (x : seq (seq (seq R))) :
  coords self = Some g -> has_shape3 nchan n n x ->
  let v := [seq scale2 (toC (cell_size g ^+ 2)) (Spec.dft2 tw (map2 toC ch))
           | ch <- x] in
  forward (Tensor (dim := 3) x) self = (inr v, set_vis v self) /\
  has_shape3 nchan n n v.
Proof.
move=> cE shape v; rewrite forwardE /= cE.
have vE : visibilities g x = v.
  rewrite (@fftn_dft2 _ _ nchan n n) ?has_shape3_map3 //.
  by rewrite /scale3 /map3 -!map_comp.
rewrite vE; split=> //.
by rewrite -vE /scale3 has_shape3_map3 fftn_shape // has_shape3_map3.
Qed.

(** C7: on a cube of shape [(nchan, n, n)], [forward] followed by the
    inverse of the layer (division by [cell_size ** 2], then the inverse
    discrete Fourier transform) gives the cube back; [tw n] is a primitive
    [n]-th root of unity and [cell_size ** 2] is not zero. *)
Theorem forward_inverse_roundtrip self g nchan n (x : seq (seq (seq R))) :
  n.-primitive_root (tw n) -> toC (cell_size g ^+ 2) != 0 ->
  coords self = Some g -> has_shape3 nchan n n x ->
  exists v,
    forward (Tensor (dim := 3) x) self = (inr v, set_vis v self) /\
    Spec.inverse toC tw g v = map3 toC x.
Proof.
move=> prim c0 cE shape; exists (visibilities g x).
rewrite forwardE /= cE; split=> //.
by rewrite /Spec.inverse scale3K // (ifftn_fftn (c := nchan) prim) // has_shape3_map3.
Qed.


(** C4, at the arguments where the code departs from it: built with no
    argument at all, a [FourierCube] is constructed without an error and
    without [coords]; the failure only shows at the first [forward]. *)
Theorem new_without_arguments :
  new None None None = inr (FourierCube.empty R C) /\
  forall x : seq (seq (seq R)),
    forward (Tensor (dim := 3) x) (FourierCube.empty R C)
    = (inl (Py.AttributeError "coords"), FourierCube.empty R C).
Proof. by split=> // x; rewrite forwardE. Qed.

(** The conflicting construction is rejected. *)
Lemma new_both_ConfigurationError cs np g :
  ~~ (Py.is_None np && Py.is_None cs) ->
  exists2 e, new cs np (Some g) = inl e & Errors.ConfigurationError e.
Proof.
rewrite /FourierCube.new /FourierCube.__init__ /Py.bind /Py.assert /=.
by move=> /negPf ->; exists (Py.AssertionError Errors.msg_coords_given).
Qed.

Lemma new_coords_only g : new None None (Some g) = inr (Layer (Some g) None).
Proof. by []. Qed.

Lemma new_cell_size_npix cs np g :
  Py.truthy_num np || Py.truthy_num cs -> GridCoords_init cs np = inr g ->
  new cs np None = inr (Layer (Some g) None).
Proof.
rewrite /FourierCube.new /FourierCube.__init__ /Py.bind /Py.assert /Py.call /=.
by move=> -> ->.
Qed.

End Facts.

End FourierCubeSpec.

(** ** The non-uniform layer *)

Module NuFFTNarrowSpec.

Import Coordinates Torch TorchFacts NuFFTNarrow.

Section Facts.

Variables (R : comNzRingType) (C : fieldType).
Variable toC : R -> C.
Variable pi : R.
Variable GridCoords_init : option R -> option int -> Py.result (GridCoords R).
Variable KbNufft :
  nat * nat -> seq (seq (seq (seq C))) -> seq (seq R) -> seq (seq (seq C)).

Local Notation layer := (NuFFTNarrow.t R).
Local Notation forward := (NuFFTNarrow.forward toC pi KbNufft).
Local Notation _assemble_ktraj := (NuFFTNarrow._assemble_ktraj pi).
Local Notation new := (NuFFTNarrow.new pi GridCoords_init).
Local Notation nufft_samples := (Spec.nufft_samples toC KbNufft).
Local Notation ktraj_vu := (Spec.ktraj_vu pi).

Implicit Types (self : layer) (g : GridCoords R) (x : seq (seq (seq R))).
Implicit Types (uu vv : seq R) (kt : seq (seq R)).

Lemma klambda_to_radpixE self g ks :
  coords self = Some g ->
  _klambda_to_radpix pi ks self = (inr [seq Spec.radpix pi g k | k <- ks], self).
Proof.
move=> cE; rewrite /_klambda_to_radpix /Py.bind /Py.getattr cE /Py.ret.
congr (inr _, _); rewrite -!map_comp; apply: eq_map => k /=.
by rewrite /Spec.radpix !mulrA.
Qed.

Lemma assemble_ktrajE self g uu vv :
  coords self = Some g ->
  _assemble_ktraj uu vv self = (tensor_of_rows (ktraj_vu g uu vv), self).
Proof.
move=> cE; rewrite /NuFFTNarrow._assemble_ktraj /Py.bind.
by rewrite !(klambda_to_radpixE _ cE).
Qed.

Lemma tensor_of_ktraj g uu vv :
  size uu = size vv -> tensor_of_rows (ktraj_vu g uu vv) = inr (ktraj_vu g uu vv).
Proof. by move=> sz; rewrite /tensor_of_rows /= !size_map sz !eqxx. Qed.


(** C2: the trajectory of equally long [uu] and [vv] has two rows, the
    converted [vv] first and the converted [uu] second, each coordinate
    being multiplied by 1000, by [2 pi] and by the pixel angular size. *)
Theorem assemble_ktraj_vu self g uu vv :
  coords self = Some g -> size uu = size vv ->
  _assemble_ktraj uu vv self
  = (inr [:: [seq v * 1000%:R * (2%:R * pi) * dl g | v <- vv];
             [seq u * 1000%:R * (2%:R * pi) * dl g | u <- uu]], self).
Proof. by move=> cE sz; rewrite (assemble_ktrajE _ _ cE) tensor_of_ktraj. Qed.

Lemma forward_supplied self g x uu vv :
  constructed g self ->
  forward x (Some uu) (Some vv) self =
  match tensor_of_rows (ktraj_vu g uu vv) with
  | inr kt => (nufft_samples g kt x, self)
  | inl e => (inl e, self)
  end.
Proof.
case=> cE obE; rewrite /NuFFTNarrow.forward /Py.bind (assemble_ktrajE _ _ cE).
rewrite /Py.call; case: (tensor_of_rows _) => [e|kt] //.
by rewrite /Py.getattr cE obE.
Qed.

Lemma forward_cached self g x (uu vv : option (seq R)) :
  constructed g self -> ~~ (uu && vv) ->
  forward x uu vv self =
  if k_traj self is Some kt then (nufft_samples g kt x, self)
  else (inl (Py.AttributeError "k_traj"), self).
Proof.
move=> [cE obE] not_both; rewrite /NuFFTNarrow.forward /Py.bind.
have -> : match uu, vv with
          | Some u, Some v => _assemble_ktraj u v
          | _, _ => Py.getattr "k_traj" (@k_traj R)
          end = Py.getattr "k_traj" (@k_traj R).
  by case: uu vv not_both => [u|] [v|].
rewrite /Py.getattr; case: (k_traj self) => [kt|] //.
by rewrite cE obE.
Qed.

(** Under the contract of the primitive the samples have shape
    [(nchan, N)]. *)
Lemma nufft_samples_shape g kt x nchan N :
  KbNufft_contract KbNufft ->
  has_shape3 nchan (npix g) (npix g) x -> has_shape2 2 N kt ->
  exists2 out, nufft_samples g kt x = inr out & has_shape2 nchan N out.
Proof.
move=> contract shape shape_kt; rewrite /Spec.nufft_samples.
have shape4 : has_shape4 1 nchan (npix g) (npix g) [:: map3 toC (fftshift x)].
  by rewrite /has_shape4 /= has_shape3_map3 has_shape3_fftshift shape.
have := contract _ _ _ _ _ _ _ shape4 shape_kt.
rewrite -(has_shape3_map3 ( *%R (toC (cell_size g ^+ 2)))) -/(scale3 _ _).
case: (scale3 _ _) => [|out [|? ?]] //=.
by rewrite /has_shape3 /= andbT => sh; exists out.
Qed.


(** C6: with a trajectory cached at construction, a call that supplies
    both [uu] and [vv] evaluates the primitive at the trajectory assembled
    from them, whatever the cached one is; a call that supplies neither
    evaluates it at the cached one. *)
Theorem forward_trajectory_choice self g cached x uu vv :
  constructed g self -> k_traj self = Some cached -> size uu = size vv ->
  [/\ forward x (Some uu) (Some vv) self
        = (nufft_samples g (ktraj_vu g uu vv) x, self),
      forall other,
        (forward x (Some uu) (Some vv) (set_k_traj other self)).1
        = (forward x (Some uu) (Some vv) self).1
    & forward x None None self = (nufft_samples g cached x, self)].
Proof.
move=> built ktE sz; split.
- by rewrite (forward_supplied _ _ _ built) tensor_of_ktraj.
- move=> other.
  have built' : constructed g (set_k_traj other self) by case: built.
  rewrite (forward_supplied _ _ _ built) (forward_supplied _ _ _ built').
  by case: (tensor_of_rows _).
- by rewrite (forward_cached _ (uu := None) (vv := None) built) // ktE.
Qed.

(** C10: with a trajectory cached at construction, a call that supplies
    only one of [uu] and [vv] returns what the call without coordinates
    returns: the samples at the cached trajectory, and no exception. *)
Theorem forward_partial_uses_cache self g cached nchan N x partial :
  KbNufft_contract KbNufft -> constructed g self ->
  k_traj self = Some cached ->
  has_shape3 nchan (npix g) (npix g) x -> has_shape2 2 N cached ->
  exists out,
    [/\ nufft_samples g cached x = inr out,
        forward x (Some partial) None self = (inr out, self),
        forward x None (Some partial) self = (inr out, self)
      & forward x None None self = (inr out, self)].
Proof.
move=> contract built ktE shape shape_kt.
have [out outE _] := nufft_samples_shape contract shape shape_kt.
exists out; split=> //.
- by rewrite (forward_cached _ (uu := Some partial) (vv := None) built) // ktE outE.
- by rewrite (forward_cached _ (uu := None) (vv := Some partial) built) // ktE outE.
- by rewrite (forward_cached _ (uu := None) (vv := None) built) // ktE outE.
Qed.

(** Construction. *)
Lemma nufft_new_both_ConfigurationError cs np g ouu ovv :
  ~~ (Py.is_None np && Py.is_None cs) ->
  exists2 e, new cs np (Some g) ouu ovv = inl e & Errors.ConfigurationError e.
Proof.
rewrite /NuFFTNarrow.new /NuFFTNarrow.__init__ /Py.bind /Py.assert /=.
by move=> /negPf ->; exists (Py.AssertionError Errors.msg_coords_given).
Qed.

Lemma nufft_new_neither_raises ouu ovv :
  new None None None ouu ovv = inl (Py.AttributeError "coords").
Proof. by []. Qed.

Lemma new_constructed cs np co ouu ovv self :
  new cs np co ouu ovv = inr self -> exists g, constructed g self.
Proof.
rewrite /NuFFTNarrow.new /NuFFTNarrow.__init__ /Py.bind.
case: (if Py.truthy_obj co then _ else _) => [[e|[]] self1] //.
rewrite {1}/Py.getattr; case cE: (coords self1) => [g|] //.
rewrite /Py.setattr.
have built : constructed g (set_nufft_ob (npix g, npix g) self1) by [].
case: ouu ovv => [u|] [v|]; rewrite /Py.ret /=.
- rewrite (assemble_ktrajE _ _ (proj1 built)) /=.
  by case: (tensor_of_rows _) => [e|kt] //= [<-]; exists g.
- by case=> <-; exists g.
- by case=> <-; exists g.
- by case=> <-; exists g.
Qed.

End Facts.

End NuFFTNarrowSpec.

(** ** The embedding run on the rational engine *)

Module Examples.

Import Coordinates Torch TorchFacts RatEngine.

Example fftshift1_odd :
  fftshift1 [:: 0%N; 1%N; 2%N; 3%N; 4%N] = [:: 3%N; 4%N; 0%N; 1%N; 2%N].
Proof. reflexivity. Qed.

Example fftshift1_even :
  fftshift1 [:: 0%N; 1%N; 2%N; 3%N] = [:: 2%N; 3%N; 0%N; 1%N].
Proof. reflexivity. Qed.

(** The cube [[1, 2], [3, 4]] on a grid with [cell_size = 1/2]. *)
Example forward_cube2 :
  (FourierCube.forward toC tw (Tensor (dim := 3) cube2) fourier_layer).1
  = inr [:: [:: [:: 5%:R / 2%:R; -1 / 2%:R]; [:: -1; 0]]].
Proof.
by rewrite FourierCubeSpec.forwardE /=; congr inr; apply/eqP; vm_compute.
Qed.

Example roundtrip_cube2 : ifftn tw (fftn tw cube2) = cube2.
Proof. by apply/eqP; vm_compute. Qed.

Example forward_matrix_rejected :
  FourierCube.forward toC tw (Tensor (dim := 2) [:: [:: 1; 2%:R]])
    fourier_layer
  = (inl (Py.AssertionError "cube must be 3D"), fourier_layer).
Proof. reflexivity. Qed.

Example new_both_rejected :
  FourierCube.new rat GridCoords_init (Some 1) (Some 2%:Z) (Some grid2)
  = inl (Py.AssertionError
      "npix and cell_size must be empty if precomputed GridCoords are supplied.").
Proof. reflexivity. Qed.

Example new_pair_accepted :
  FourierCube.new rat GridCoords_init (Some 1) (Some 2%:Z) None
  = inr (FourierCube.Layer (Some (mkGridCoords 1 2 (1 * arcsec))) None).
Proof. reflexivity. Qed.

Example ktraj_values :
  Spec.ktraj_vu pi grid2 uu2 vv2 = [:: [:: 0; 1; -1]; [:: 1; 2%:R; 0]].
Proof. by apply/eqP; vm_compute. Qed.

(** Coordinate arrays of different lengths do not make a tensor. *)
Example ktraj_ragged :
  (NuFFTNarrow._assemble_ktraj pi [:: 1] [::] nufft_layer).1
  = inl (Py.ValueError "expected sequence of equal lengths").
Proof.
by rewrite (@NuFFTNarrowSpec.assemble_ktrajE _ pi nufft_layer grid2).
Qed.

Example nufft_new_plain :
  NuFFTNarrow.new pi GridCoords_init None None (Some grid2) None None
  = inr (NuFFTNarrow.Layer (Some grid2) (Some (2%N, 2%N)) None).
Proof. reflexivity. Qed.

Example nufft_new_caches :
  (if NuFFTNarrow.new pi GridCoords_init None None (Some grid2)
        (Some uu2) (Some vv2) is inr self
   then NuFFTNarrow.k_traj self else None)
  = Some [:: [:: 0; 1; -1]; [:: 1; 2%:R; 0]].
Proof. by apply/eqP; vm_compute. Qed.

End Examples.

(** ** The theorems at work on the rational engine *)

Module Witnesses.

Import Coordinates Torch TorchFacts RatEngine.

Lemma tw2_primitive : 2.-primitive_root (tw 2).
Proof.
apply/andP; split=> //; apply/forallP => i; rewrite unity_rootE.
by case: i => [[|[|i]]] //= _; apply/eqP; apply/eqP.
Qed.

Lemma engine_contract : NuFFTNarrow.KbNufft_contract KbNufft.
Proof.
move=> b c h w N image om /andP [/eqP szb /(all_nthP [::]) batches].
case/andP => /eqP sz2 /(all_nthP [::]) rows.
have szN : size (head [::] om) = N.
  by case: om sz2 rows => [|r0 om'] // _ /(_ 0%N isT) /= /eqP.
rewrite /has_shape3 /KbNufft size_map szb eqxx /=.
rewrite all_map; apply/(all_nthP [::]) => k lt_k /=.
have /andP [/eqP szc _] := batches k lt_k.
rewrite /has_shape2 size_map szc eqxx /= all_map.
by apply/(all_nthP [::]) => ch _ /=; rewrite size_nseq szN.
Qed.

Lemma forward_scaled_dft2_witness :
  FourierCube.coords fourier_layer = Some grid2 /\
  has_shape3 1 2 2 cube2 /\
  let v := [seq scale2 (toC (cell_size grid2 ^+ 2))
              (Spec.dft2 tw (map2 toC ch)) | ch <- cube2] in
  FourierCube.forward toC tw (Tensor (dim := 3) cube2) fourier_layer
  = (inr v, FourierCube.set_vis v fourier_layer) /\
  has_shape3 1 2 2 v.
Proof.
split; [reflexivity | split; [reflexivity |]].
apply: (@FourierCubeSpec.forward_scaled_dft2 _ _ toC tw fourier_layer grid2 1 2 cube2);
  reflexivity.
Defined.

Lemma forward_inverse_roundtrip_witness :
  2.-primitive_root (tw 2) /\
  toC (cell_size grid2 ^+ 2) != 0 /\
  FourierCube.coords fourier_layer = Some grid2 /\
  has_shape3 1 2 2 cube2 /\
  exists v,
    FourierCube.forward toC tw (Tensor (dim := 3) cube2) fourier_layer
    = (inr v, FourierCube.set_vis v fourier_layer) /\
    Spec.inverse toC tw grid2 v = map3 toC cube2.
Proof.
split; [exact: tw2_primitive | split; [reflexivity |]].
split; [reflexivity | split; [reflexivity |]].
apply: (@FourierCubeSpec.forward_inverse_roundtrip _ _ toC tw fourier_layer
          grid2 1 2 cube2); try reflexivity.
exact: tw2_primitive.
Defined.


Lemma assemble_ktraj_vu_witness :
  NuFFTNarrow.coords nufft_layer = Some grid2 /\
  size uu2 = size vv2 /\
  NuFFTNarrow._assemble_ktraj pi uu2 vv2 nufft_layer
  = (inr [:: [seq v * 1000%:R * (2%:R * pi) * dl grid2 | v <- vv2];
             [seq u * 1000%:R * (2%:R * pi) * dl grid2 | u <- uu2]],
     nufft_layer).
Proof.
split; [reflexivity | split; [reflexivity |]].
apply: (@NuFFTNarrowSpec.assemble_ktraj_vu _ pi nufft_layer grid2 uu2 vv2);
  reflexivity.
Defined.

Lemma nufft_layer_constructed : NuFFTNarrow.constructed grid2 nufft_layer.
Proof. split; reflexivity. Defined.


Lemma forward_trajectory_choice_witness :
  NuFFTNarrow.constructed grid2 nufft_layer /\
  NuFFTNarrow.k_traj nufft_layer = Some [:: vv2; uu2] /\
  size uu2 = size vv2 /\
  [/\ NuFFTNarrow.forward toC pi KbNufft cube2 (Some uu2) (Some vv2)
        nufft_layer
      = (Spec.nufft_samples toC KbNufft grid2
           (Spec.ktraj_vu pi grid2 uu2 vv2) cube2, nufft_layer),
      forall other,
        (NuFFTNarrow.forward toC pi KbNufft cube2 (Some uu2) (Some vv2)
           (NuFFTNarrow.set_k_traj other nufft_layer)).1
        = (NuFFTNarrow.forward toC pi KbNufft cube2 (Some uu2) (Some vv2)
             nufft_layer).1
    & NuFFTNarrow.forward toC pi KbNufft cube2 None None nufft_layer
      = (Spec.nufft_samples toC KbNufft grid2 [:: vv2; uu2] cube2,
         nufft_layer)].
Proof.
split; [exact: nufft_layer_constructed | split; [reflexivity |]].
split; [reflexivity |].
apply: (@NuFFTNarrowSpec.forward_trajectory_choice _ _ toC pi KbNufft
          nufft_layer grid2 [:: vv2; uu2] cube2 uu2 vv2); try reflexivity.
exact: nufft_layer_constructed.
Defined.

Lemma forward_partial_uses_cache_witness :
  NuFFTNarrow.KbNufft_contract KbNufft /\
  NuFFTNarrow.constructed grid2 nufft_layer /\
  NuFFTNarrow.k_traj nufft_layer = Some [:: vv2; uu2] /\
  has_shape3 1 (npix grid2) (npix grid2) cube2 /\
  has_shape2 2 3 [:: vv2; uu2] /\
  exists out,
    [/\ Spec.nufft_samples toC KbNufft grid2 [:: vv2; uu2] cube2 = inr out,
        NuFFTNarrow.forward toC pi KbNufft cube2 (Some uu2) None nufft_layer
        = (inr out, nufft_layer),
        NuFFTNarrow.forward toC pi KbNufft cube2 None (Some uu2) nufft_layer
        = (inr out, nufft_layer)
      & NuFFTNarrow.forward toC pi KbNufft cube2 None None nufft_layer
        = (inr out, nufft_layer)].
Proof.
split; [exact: engine_contract | split; [exact: nufft_layer_constructed |]].
split; [reflexivity | split; [reflexivity | split; [reflexivity |]]].
apply: (@NuFFTNarrowSpec.forward_partial_uses_cache _ _ toC pi KbNufft
          nufft_layer grid2 [:: vv2; uu2] 1 3 cube2 uu2); try reflexivity.
- exact: engine_contract.
- exact: nufft_layer_constructed.
Defined.

End Witnesses.

(** * Further properties of the layers *)

(** ** The uniform layer: construction, state and views *)

Module FourierCubeMore.

Import Coordinates Torch TorchFacts FourierCube.

Section State.

Variables (R : comNzRingType) (C : fieldType).
Variable toC : R -> C.
Variable tw : nat -> C.
Variables cabs cangle : C -> R.
Variable GridCoords_init : option R -> option int -> Py.result (GridCoords R).

Local Notation layer := (FourierCube.t R C).
Local Notation forward := (FourierCube.forward toC tw).
Local Notation new := (FourierCube.new C GridCoords_init).

Implicit Types (self : layer) (x y : tensor R) (g : GridCoords R).

(** The outcome of the constructor, case by case. *)
Lemma newE cs np co :
  new cs np co =
  if co is Some g then
    if Py.is_None np && Py.is_None cs then inr (Layer (Some g) None)
    else inl (Py.AssertionError Errors.msg_coords_given)
  else if Py.truthy_num np || Py.truthy_num cs then
    if GridCoords_init cs np is inr g then inr (Layer (Some g) None)
    else if GridCoords_init cs np is inl e then inl e
    else inr (FourierCube.empty R C)
  else inr (FourierCube.empty R C).
Proof.
rewrite /FourierCube.new /FourierCube.__init__ /Py.bind /Py.assert /Py.call.
case: co => [g|] /=; first by case: (_ && _).
by case: (_ || _) => //=; case: (GridCoords_init cs np).
Qed.

Lemma new_vis self cs np co : new cs np co = inr self -> vis self = None.
Proof.
rewrite newE; case: co => [g|]; first by case: ifP => // _ [<-].
case: ifP => _; last by case=> <-.
by case: (GridCoords_init cs np) => [e|g] // [<-].
Qed.

(** X1: the result of [forward] does not depend on earlier calls, and after
    a call that returns, [vis] holds the cube of that call alone: a second
    call overwrites the first. *)
Theorem forward_history_free x y self :
  (forward y (forward x self).2).1 = (forward y self).1 /\
  match (forward y self).1 with
  | inr _ => (forward y (forward x self).2).2 = (forward y self).2
  | inl _ => (forward y (forward x self).2).2 = (forward x self).2
  end.
Proof.
rewrite (FourierCubeSpec.forwardE _ _ x self).
case: (dim x == 3%N); case E: (coords self) => [g|] /=;
  rewrite !FourierCubeSpec.forwardE /= ?E; by case: (dim y == 3%N).
Qed.

(** X2: on a layer as the constructor returns it, before any [forward],
    reading a view raises [AttributeError] for the view itself
    ([ground_vis], [ground_amp], [ground_phase]: the missing [vis] makes the
    getter fail and the lookup falls back on [__getattr__]) and leaves the
    layer as it is. *)
Theorem views_before_forward cs np co self :
  new cs np co = inr self ->
  [/\ ground_vis self = (inl (Py.AttributeError "ground_vis"), self),
      ground_amp cabs self = (inl (Py.AttributeError "ground_amp"), self)
    & ground_phase cangle self
      = (inl (Py.AttributeError "ground_phase"), self)].
Proof.
move=> /new_vis visE.
rewrite /ground_amp /ground_phase /ground_vis /Py.property /Py.bind.
by rewrite /Py.getattr visE.
Qed.

(** X4: a number that is zero counts as an argument that is absent: with
    no [coords] and [npix], [cell_size] each [None] or zero, the constructor
    returns a layer without [coords], and the [GridCoords] constructor is
    not consulted. *)
Theorem new_falsy_arguments cs np :
  ~~ Py.truthy_num np -> ~~ Py.truthy_num cs ->
  new cs np None = inr (FourierCube.empty R C).
Proof. by rewrite newE => /negPf -> /negPf ->. Qed.

End State.

End FourierCubeMore.

(** ** More on the tensor engine *)

Module TorchMore.

Import Torch TorchFacts.

Section Shifts.

Variable T : Type.

Lemma fftshift1_involutive (A : Type) (s : seq A) :
  ~~ odd (size s) -> fftshift1 (fftshift1 s) = s.
Proof.
move=> even_s; rewrite /fftshift1 size_rot divn2.
have half : (size s - (size s)./2 = (size s)./2)%N.
  by rewrite -{1}(even_halfK even_s) -addnn addnK.
rewrite half -rotD addnn even_halfK //.
exact: rot_size.
Qed.

Lemma map_id_all (A : Type) (P : pred A) (F : A -> A) (s : seq A) :
  (forall a, P a -> F a = a) -> all P s -> map F s = s.
Proof.
by move=> FP; elim: s => [|a s IH] //= /andP [/FP -> /IH ->].
Qed.

Lemma fftshift1_map (A B : Type) (F : A -> B) (s : seq A) :
  fftshift1 (map F s) = map F (fftshift1 s).
Proof. by rewrite /fftshift1 size_map map_rot. Qed.

(** X16: on a cube whose two spatial sizes are even, the shift over the
    spatial axes is its own inverse: shifting twice gives the cube back. *)
Theorem fftshift_even c h w (x : seq (seq (seq T))) :
  ~~ odd h -> ~~ odd w -> has_shape3 c h w x -> fftshift (fftshift x) = x.
Proof.
move=> even_h even_w /andP [_ chans]; rewrite /fftshift -map_comp.
apply: map_id_all chans => m /= /andP [/eqP szm rows].
rewrite !fftshift1_map fftshift1_involutive ?szm // -map_comp.
by apply: map_id_all rows => r /= /eqP szr; rewrite fftshift1_involutive ?szr.
Qed.

End Shifts.

Section Sums.

Variable C : fieldType.
Variable tw : nat -> C.
Implicit Types (K : nat -> nat -> nat -> C) (m : seq (seq C)).

Lemma sum_root_powers n (z : C) k :
  n.-primitive_root z -> (k < n)%N ->
  \sum_(j < n) z ^+ (j * k) = if k == 0%N then n%:R else 0.
Proof.
move=> prim kn; have n0 : (0 < n)%N := prim_order_gt0 prim.
rewrite -(root_orthogonal (Ordinal kn) (Ordinal n0) prim).
by apply: eq_bigr => j _; rewrite muln0 expr0 mulr1 mulnC.
Qed.

Lemma dft2E n m :
  (0 < n)%N -> has_shape2 n n m ->
  Spec.dft2 tw m =
  tabulate2 (fun k1 k2 =>
    \sum_(n1 < n) \sum_(n2 < n)
      nth 0 (nth [::] m n1) n2 * (tw n ^+ (n1 * k1) * tw n ^+ (n2 * k2)))
    n n.
Proof.
move=> n0 /andP [/eqP sz /(all_nthP [::]) rows]; rewrite /Spec.dft2 sz.
by rewrite -nth0 (eqP (rows 0%N _)) ?sz.
Qed.

Lemma map2_tabulate2 (A B : Type) (F : A -> B) (f : nat -> nat -> A) h w :
  map2 F (tabulate2 f h w) = tabulate2 (fun i j => F (f i j)) h w.
Proof.
rewrite /map2 /tabulate2 /mkseq -map_comp; apply: eq_map => i /=.
by rewrite -map_comp.
Qed.

Lemma add2_tabulate2 (V : nmodType) (f g : nat -> nat -> V) h w :
  add2 (tabulate2 f h w) (tabulate2 g h w)
  = tabulate2 (fun i j => f i j + g i j) h w.
Proof.
rewrite /add2 /tabulate2 /mkseq zip_map -map_comp; apply: eq_map => i /=.
by rewrite /add1 zip_map -map_comp.
Qed.

Lemma transform_add K K' h w m m' :
  has_shape2 h w m -> has_shape2 h w m' ->
  along_axis2 K' (along_axis1 K (add2 m m'))
  = add2 (along_axis2 K' (along_axis1 K m)) (along_axis2 K' (along_axis1 K m')).
Proof.
move=> /(shape2_tabulate 0) -> /(shape2_tabulate 0) ->.
rewrite add2_tabulate2 !(along_axis1_tabulate, along_axis2_tabulate).
rewrite add2_tabulate2; apply: eq_tabulate2 => k1 k2 _ _.
rewrite -big_split /=; apply: eq_bigr => j _.
rewrite -mulrDl; congr (_ * _); rewrite -big_split /=.
by apply: eq_bigr => i _; rewrite mulrDl.
Qed.

Lemma transform_scale K K' h w (a : C) m :
  has_shape2 h w m ->
  along_axis2 K' (along_axis1 K (scale2 a m))
  = scale2 a (along_axis2 K' (along_axis1 K m)).
Proof.
move=> /(shape2_tabulate 0) ->.
rewrite /scale2 map2_tabulate2 !(along_axis1_tabulate, along_axis2_tabulate).
rewrite map2_tabulate2; apply: eq_tabulate2 => k1 k2 _ _.
rewrite big_distrr /=; apply: eq_bigr => j _.
rewrite mulrA; congr (_ * _); rewrite big_distrr /=.
by apply: eq_bigr => i _; rewrite mulrA.
Qed.

Lemma fftn_add c h w (X Y : seq (seq (seq C))) :
  has_shape3 c h w X -> has_shape3 c h w Y ->
  fftn tw (add3 X Y) = add3 (fftn tw X) (fftn tw Y).
Proof.
move=> /andP [_ sX] /andP [_ sY].
elim: X Y sX sY => [|m X IH] [|m' Y] //= /andP [sm sX] /andP [sm' sY].
by rewrite /fftn /add3 /= (transform_add _ _ sm sm') -/(add3 _ _) -/(fftn _ _) IH.
Qed.

Lemma fftn_scale c h w (a : C) (X : seq (seq (seq C))) :
  has_shape3 c h w X -> fftn tw (scale3 a X) = scale3 a (fftn tw X).
Proof.
move=> /andP [_ sX]; rewrite /fftn /scale3 /map3 -!map_comp.
elim: X sX => [|m X IH] //= /andP [sm sX].
by rewrite -/(scale2 a m) (transform_scale _ _ _ sm) IH.
Qed.

Lemma map3_add (V W : nmodType) (F : V -> W) (x y : seq (seq (seq V))) :
  (forall a b, F (a + b) = F a + F b) ->
  map3 F (add3 x y) = add3 (map3 F x) (map3 F y).
Proof.
move=> Fadd.
have add1F r s : map F (add1 r s) = add1 (map F r) (map F s).
  by elim: r s => [|a r IH] [|b s] //=; rewrite Fadd -/(add1 r s) IH.
have add2F (p q : seq (seq V)) :
    map2 F (add2 p q) = add2 (map2 F p) (map2 F q).
  elim: p q => [|r p IH] [|s q] //=.
  by rewrite add1F -/(add2 p q) -/(map2 F (add2 p q)) IH.
elim: x y => [|p x IH] [|q y] //=.
by rewrite add2F -/(add3 x y) -/(map3 F (add3 x y)) IH.
Qed.

End Sums.

End TorchMore.

(** ** The uniform layer as a transform *)

Module FourierCubeTransform.

Import Coordinates Torch TorchFacts TorchMore FourierCube.

Section Transform.

Variables (R : comNzRingType) (C : fieldType).
Variable toC : {rmorphism R -> C}.
Variable tw : nat -> C.

Local Notation layer := (FourierCube.t R C).
Local Notation forward := (FourierCube.forward toC tw).
Local Notation visibilities g x :=
  (scale3 (toC (cell_size g ^+ 2)) (fftn tw (map3 toC x))).

Implicit Types (self : layer) (g : GridCoords R) (x y : seq (seq (seq R))).

(** Entry [(k1, k2)] of a channel of the visibilities. *)
Lemma visibilities_entries g nchan n x :
  (0 < n)%N -> has_shape3 nchan n n x ->
  visibilities g x =
  [seq tabulate2 (fun k1 k2 =>
         toC (cell_size g ^+ 2) *
         \sum_(n1 < n) \sum_(n2 < n)
           toC (nth 0 (nth [::] ch n1) n2)
           * (tw n ^+ (n1 * k1) * tw n ^+ (n2 * k2))) n n
  | ch <- x].
Proof.
move=> n0 shape.
rewrite (@fftn_dft2 _ _ nchan n n) ?has_shape3_map3 //.
rewrite /scale3 /map3 -!map_comp; case/andP: shape => _ /allP chans.
apply/eq_in_map => ch /chans shape_ch /=.
rewrite (dft2E _ n0) ?has_shape2_map2 // map2_tabulate2.
apply: eq_tabulate2 => k1 k2 _ _; congr (_ * _).
apply: eq_bigr => n1 _; apply: eq_bigr => n2 _; congr (_ * _).
case/andP: (shape_ch) => /eqP szch /(all_nthP [::]) rows.
rewrite /map2 (nth_map [::]) ?szch // (nth_map 0) //.
by rewrite (eqP (rows _ _)) ?szch.
Qed.

Lemma visibilities_shape g nchan n x :
  has_shape3 nchan n n x -> has_shape3 nchan n n (visibilities g x).
Proof.
by move=> shape; rewrite /scale3 has_shape3_map3 fftn_shape // has_shape3_map3.
Qed.

Lemma visibilities_dc g nchan n x c :
  (0 < n)%N -> has_shape3 nchan n n x -> (c < nchan)%N ->
  nth 0 (nth [::] (nth [::] (visibilities g x) c) 0) 0
  = toC (cell_size g ^+ 2) *
    \sum_(i < n) \sum_(j < n) toC (nth 0 (nth [::] (nth [::] x c) i) j).
Proof.
move=> n0 shape lt_c; rewrite (visibilities_entries g n0 shape).
have szx : size x = nchan by case/andP: shape => /eqP.
rewrite (nth_map [::]) ?szx // nth_tabulate2 //; congr (_ * _).
apply: eq_bigr => i _; apply: eq_bigr => j _.
by rewrite !muln0 !expr0 !mulr1.
Qed.

Lemma eq_map3 (A B : Type) (F G : A -> B) (z : seq (seq (seq A))) :
  F =1 G -> map3 F z = map3 G z.
Proof.
move=> FG; rewrite /map3 /map2; apply: eq_map => m.
by apply: eq_map => r; apply: eq_map.
Qed.

(** X5: [forward] is linear in the cube: for cubes [x] and [y] of shape
    [(nchan, n, n)] and a real [a], the visibilities of [a * x + y] are
    [a] times those of [x] plus those of [y]. *)
Theorem forward_linear self g nchan n (a : R) x y :
  (0 < n)%N -> coords self = Some g ->
  has_shape3 nchan n n x -> has_shape3 nchan n n y ->
  exists vx vy,
    [/\ (forward (Tensor (dim := 3) x) self).1 = inr vx,
        (forward (Tensor (dim := 3) y) self).1 = inr vy
      & (forward (Tensor (dim := 3) (add3 (map3 ( *%R a) x) y)) self).1
        = inr (add3 (scale3 (toC a) vx) vy)].
Proof.
move=> n0 cE sx sy; exists (visibilities g x), (visibilities g y).
rewrite !FourierCubeSpec.forwardE /= cE /=; split=> //; congr inr.
have toCD u v : toC (u + v) = toC u + toC v by rewrite rmorphD.
rewrite (map3_add _ _ toCD).
have -> : map3 toC (map3 ( *%R a) x) = scale3 (toC a) (map3 toC x).
  by rewrite /scale3 !map3_comp; apply: eq_map3 => z /=; rewrite rmorphM.
have sX : has_shape3 nchan n n (map3 toC x) by rewrite has_shape3_map3.
have sY : has_shape3 nchan n n (map3 toC y) by rewrite has_shape3_map3.
have sX' : has_shape3 nchan n n (scale3 (toC a) (map3 toC x)).
  by rewrite /scale3 has_shape3_map3.
rewrite (fftn_add tw sX' sY) (fftn_scale tw _ sX).
have mulD (c : C) u v : c * (u + v) = c * u + c * v by rewrite mulrDr.
rewrite /scale3 (map3_add _ _ (mulD _)).
congr add3; rewrite !map3_comp; apply: eq_map3 => z /=.
by rewrite mulrCA.
Qed.

(** X6: entry [(0, 0)] of every channel of the visibilities is
    [cell_size ** 2] times the sum of the pixels of the channel: zero
    frequency comes first, and it carries the total flux. *)
Theorem forward_zero_frequency self g nchan n x :
  (0 < n)%N -> coords self = Some g -> has_shape3 nchan n n x ->
  exists2 v, (forward (Tensor (dim := 3) x) self).1 = inr v &
    forall c, (c < nchan)%N ->
      nth 0 (nth [::] (nth [::] v c) 0) 0
      = toC (cell_size g ^+ 2) *
        \sum_(i < n) \sum_(j < n) toC (nth 0 (nth [::] (nth [::] x c) i) j).
Proof.
move=> n0 cE shape; exists (visibilities g x).
  by rewrite FourierCubeSpec.forwardE /= cE.
by move=> c lt_c; apply: (visibilities_dc g n0 shape lt_c).
Qed.

(** X7: a cube whose pixels all equal [a] has visibilities that vanish
    away from zero frequency, where they are
    [cell_size ** 2 * a * n ** 2]; [tw n] is a primitive [n]-th root of
    unity. *)
Theorem forward_constant_image self g nchan n (a : R) :
  n.-primitive_root (tw n) -> coords self = Some g ->
  (forward (Tensor (dim := 3) (nseq nchan (nseq n (nseq n a)))) self).1
  = inr (nseq nchan
      (tabulate2 (fun k1 k2 =>
         if (k1 == 0%N) && (k2 == 0%N)
         then toC (cell_size g ^+ 2) * (toC a * n%:R ^+ 2) else 0) n n)).
Proof.
move=> prim cE; have n0 := prim_order_gt0 prim.
have shape : has_shape3 nchan n n (nseq nchan (nseq n (nseq n a))).
  rewrite /has_shape3 size_nseq eqxx all_nseq /has_shape2 size_nseq eqxx.
  by rewrite all_nseq size_nseq eqxx !orbT.
rewrite FourierCubeSpec.forwardE /= cE /=; congr inr.
rewrite (visibilities_entries g n0 shape) map_nseq; congr nseq.
apply: eq_tabulate2 => k1 k2 lt1 lt2.
under eq_bigr => n1 _.
  under eq_bigr => n2 _ do rewrite !(nth_nseq, ltn_ord) mulrA.
  rewrite -big_distrr /=; over.
rewrite -big_distrl -big_distrr /= !(sum_root_powers prim) //.
case: (k1 == 0%N); case: (k2 == 0%N); rewrite /= ?mulr0 ?mul0r ?mulr0 //.
by rewrite expr2 !mulrA.
Qed.

(** X8: a cube that is zero but for the value [a] at pixel [(p, q)] of
    every channel has the visibilities
    [cell_size ** 2 * a * w ** (p k1) * w ** (q k2)]: a source at the first
    pixel gives a flat visibility cube. *)
Theorem forward_point_source self g nchan n (a : R) p q :
  coords self = Some g -> (p < n)%N -> (q < n)%N ->
  (forward (Tensor (dim := 3)
     (nseq nchan
        (tabulate2 (fun i j => if (i == p) && (j == q) then a else 0) n n)))
     self).1
  = inr (nseq nchan
      (tabulate2 (fun k1 k2 =>
         toC (cell_size g ^+ 2)
         * (toC a * (tw n ^+ (p * k1) * tw n ^+ (q * k2)))) n n)).
Proof.
move=> cE pn qn; have n0 : (0 < n)%N by apply: leq_ltn_trans pn.
set img := tabulate2 _ n n.
have shape : has_shape3 nchan n n (nseq nchan img).
  by rewrite /has_shape3 size_nseq eqxx all_nseq tabulate2_shape orbT.
rewrite FourierCubeSpec.forwardE /= cE /=; congr inr.
rewrite (visibilities_entries g n0 shape) map_nseq; congr nseq.
apply: eq_tabulate2 => k1 k2 _ _; congr (_ * _).
rewrite (bigD1 (Ordinal pn)) //= [X in _ + X]big1 ?addr0.
- move=> i; rewrite -val_eqE /= => /negPf ne; apply: big1 => j _.
  by rewrite /img nth_tabulate2 // ne /= rmorph0 mul0r.
rewrite (bigD1 (Ordinal qn)) //= [X in _ + X]big1 ?addr0.
- move=> j; rewrite -val_eqE /= => /negPf ne.
  by rewrite /img nth_tabulate2 // ne andbF rmorph0 mul0r.
by rewrite /img nth_tabulate2 // !eqxx.
Qed.

(** X9: after [forward], the entry of [ground_vis] at the middle pixel
    [(n %/ 2, n %/ 2)] of every channel is [cell_size ** 2] times the sum of
    the pixels of the channel. *)
Theorem ground_vis_centre self g nchan n x :
  (0 < n)%N -> coords self = Some g -> has_shape3 nchan n n x ->
  let self' := (forward (Tensor (dim := 3) x) self).2 in
  exists2 gv, ground_vis self' = (inr gv, self') &
    forall c, (c < nchan)%N ->
      nth 0 (nth [::] (nth [::] gv c) (n %/ 2)) (n %/ 2)
      = toC (cell_size g ^+ 2) *
        \sum_(i < n) \sum_(j < n) toC (nth 0 (nth [::] (nth [::] x c) i) j).
Proof.
move=> n0 cE shape; rewrite FourierCubeSpec.forwardE /= cE /=.
exists (fftshift (visibilities g x)) => // c lt_c.
have half : ((0 + n %/ 2) %% n = n %/ 2)%N.
  by rewrite add0n modn_small // ltn_Pdiv.
rewrite -{1 2}half (nth_fftshift 0 (visibilities_shape g shape)) //.
exact: (visibilities_dc g n0 shape lt_c).
Qed.

End Transform.

End FourierCubeTransform.

(** ** The non-uniform layer: construction and state *)

Module NuFFTNarrowMore.

Import Coordinates Torch TorchFacts NuFFTNarrow.

Section State.

Variables (R : comNzRingType) (C : fieldType).
Variable toC : R -> C.
Variable pi : R.
Variable GridCoords_init : option R -> option int -> Py.result (GridCoords R).
Variable KbNufft :
  nat * nat -> seq (seq (seq (seq C))) -> seq (seq R) -> seq (seq (seq C)).

Local Notation layer := (NuFFTNarrow.t R).
Local Notation forward := (NuFFTNarrow.forward toC pi KbNufft).
Local Notation _assemble_ktraj := (NuFFTNarrow._assemble_ktraj pi).
Local Notation new := (NuFFTNarrow.new pi GridCoords_init).
Local Notation fourier_new := (FourierCube.new C GridCoords_init).
Local Notation nufft_samples := (Spec.nufft_samples toC KbNufft).
Local Notation ktraj_vu := (Spec.ktraj_vu pi).

Implicit Types (self : layer) (g : GridCoords R) (x : seq (seq (seq R))).
Implicit Types (uu vv : seq R) (ouu ovv : option (seq R)).

Local Arguments NuFFTNarrow._assemble_ktraj : simpl never.

(** What [__init__] does once [coords] is set. *)
Lemma init_tail g ouu ovv :
  (let* g' := Py.getattr "coords" (@coords R) in
   Py.setattr (set_nufft_ob (npix g', npix g')) ;;
   match ouu, ovv with
   | Some u, Some v =>
       let* kt := _assemble_ktraj u v in Py.setattr (set_k_traj kt)
   | _, _ => Py.ret tt
   end) (Layer (Some g) None None)
  = match ouu, ovv with
    | Some u, Some v =>
        match tensor_of_rows (ktraj_vu g u v) with
        | inr kt =>
            (inr tt, Layer (Some g) (Some (npix g, npix g)) (Some kt))
        | inl e => (inl e, Layer (Some g) (Some (npix g, npix g)) None)
        end
    | _, _ => (inr tt, Layer (Some g) (Some (npix g, npix g)) None)
    end.
Proof.
rewrite /Py.bind /Py.getattr /Py.setattr /=.
case: ouu ovv => [u|] [v|].
- rewrite (@NuFFTNarrowSpec.assemble_ktrajE _ pi _ g); last by [].
  by case: (tensor_of_rows (ktraj_vu g u v)).
- by [].
- by [].
- by [].
Qed.

(** The first statement of [__init__] is the constructor of the uniform
    layer. *)
Lemma init_head cs np co :
  (if Py.truthy_obj co then
     Py.assert (Py.is_None np && Py.is_None cs) Errors.msg_coords_given ;;
     Py.setattr (set_coords co)
   else if Py.truthy_num np || Py.truthy_num cs then
     Py.assert (Py.is_None co) Errors.msg_npix_given ;;
     let* g := Py.call (GridCoords_init cs np) in
     Py.setattr (set_coords (Some g))
   else Py.ret tt) (NuFFTNarrow.empty R)
  = match fourier_new cs np co with
    | inl e => (inl e, NuFFTNarrow.empty R)
    | inr f => (inr tt, Layer (FourierCube.coords f) None None)
    end.
Proof.
rewrite FourierCubeMore.newE /Py.bind /Py.assert /Py.call.
case: co => [g|] /=; first by case: (_ && _).
by case: (_ || _) => //=; case: (GridCoords_init cs np).
Qed.

(** The constructor, read on the constructor of the uniform layer. *)
Lemma nufft_newE cs np co ouu ovv :
  new cs np co ouu ovv =
  match fourier_new cs np co with
  | inl e => inl e
  | inr f =>
      match FourierCube.coords f with
      | None => inl (Py.AttributeError "coords")
      | Some g =>
          match ouu, ovv with
          | Some u, Some v =>
              match tensor_of_rows (ktraj_vu g u v) with
              | inr kt =>
                  inr (Layer (Some g) (Some (npix g, npix g)) (Some kt))
              | inl e => inl e
              end
          | _, _ => inr (Layer (Some g) (Some (npix g, npix g)) None)
          end
      end
  end.
Proof.
rewrite /NuFFTNarrow.new /NuFFTNarrow.__init__ {1}/Py.bind init_head.
case: (fourier_new cs np co) => [e|f] //.
case: (FourierCube.coords f) => [g|]; last by [].
rewrite init_tail.
by case: ouu ovv => [u|] [v|] //; case: (tensor_of_rows (ktraj_vu g u v)).
Qed.

Lemma new_cases cs np co ouu ovv self :
  new cs np co ouu ovv = inr self ->
  exists g,
    [/\ fourier_new cs np co = inr (FourierCube.Layer (Some g) None),
        self = Layer (Some g) (Some (npix g, npix g))
                 (if ouu is Some u then
                    if ovv is Some v then Some (ktraj_vu g u v) else None
                  else None)
      & match ouu, ovv with
        | Some u, Some v => size u = size v
        | _, _ => True
        end].
Proof.
rewrite nufft_newE; case E: (fourier_new cs np co) => [e|f] //.
have := FourierCubeMore.new_vis E.
case: f E => [[g|] vis0] //= E vis0E; rewrite {vis0}vis0E in E *.
case: ouu ovv => [u|] [v|].
- rewrite /tensor_of_rows /= !size_map eqxx /=.
  by case: eqP => [sz [<-]|//]; exists g.
- by case=> <-; exists g.
- by case=> <-; exists g.
- by case=> <-; exists g.
Qed.

Lemma assemble_ktraj_state uu vv self : (_assemble_ktraj uu vv self).2 = self.
Proof.
rewrite /NuFFTNarrow._assemble_ktraj /_klambda_to_radpix /Py.bind.
rewrite /Py.getattr /Py.call /Py.ret.
by case E: (coords self) => [g|] /=; rewrite ?E.
Qed.

(** X10: [forward] never writes to the layer: whatever the arguments and
    whether it returns or raises, the attributes after the call are those
    before it.  Coordinates supplied to a call are not cached. *)
Theorem forward_never_writes x ouu ovv self :
  (forward x ouu ovv self).2 = self.
Proof.
have tail kt :
    ((let* g := Py.getattr "coords" (@coords R) in
      let* ob := Py.getattr "nufft_ob" (@nufft_ob R) in
      Py.call
        (getitem0
           (scale3 (toC (cell_size g ^+ 2))
              (KbNufft ob (unsqueeze0 (map3 toC (fftshift x))) kt))))
       self).2 = self.
  rewrite /Py.bind /Py.getattr; case: (coords self) => [g|] //.
  by case: (nufft_ob self).
rewrite /NuFFTNarrow.forward {1}/Py.bind.
case: ouu ovv => [u|] [v|].
- move: (assemble_ktraj_state u v self).
  by case: (_assemble_ktraj u v self) => [[e|kt] s] /= -> //; apply: tail.
- by rewrite /Py.getattr; case: (k_traj self) => [kt|] //; apply: tail.
- by rewrite /Py.getattr; case: (k_traj self) => [kt|] //; apply: tail.
- by rewrite /Py.getattr; case: (k_traj self) => [kt|] //; apply: tail.
Qed.

(** X11: a constructor call that returns leaves a layer with the grid it
    was given (or the one [GridCoords] built from [cell_size] and [npix]), a
    primitive for the image size [(npix, npix)] of that grid, and a cached
    trajectory exactly when both [uu] and [vv] were given, then the one
    assembled from them. *)
Theorem new_establishes cs np co ouu ovv self :
  new cs np co ouu ovv = inr self ->
  exists g,
    [/\ constructed g self,
        if co is Some g' then g' = g else GridCoords_init cs np = inr g
      & k_traj self
        = if ouu is Some u then
            if ovv is Some v then Some (ktraj_vu g u v) else None
          else None].
Proof.
move=> /new_cases [g [fE -> _]]; exists g; split=> //.
move: fE; rewrite FourierCubeMore.newE; case: co => [g'|].
  by case: ifP => // _ [->].
by case: ifP => // _; case: (GridCoords_init cs np) => [e|g'] // [->].
Qed.

(** X12: a layer constructed without both coordinate arrays has no cached
    trajectory: every call that does not supply both [uu] and [vv] raises
    [AttributeError] for [k_traj]. *)
Theorem forward_without_trajectory cs np co ouu ovv self x ouu' ovv' :
  new cs np co ouu ovv = inr self ->
  ~~ (ouu && ovv) -> ~~ (ouu' && ovv') ->
  forward x ouu' ovv' self = (inl (Py.AttributeError "k_traj"), self).
Proof.
move=> /new_cases [g [_ selfE _]] not_both not_both'.
have built : constructed g self by rewrite selfE.
have ktE : k_traj self = None.
  by rewrite selfE /=; case: (ouu) (ovv) not_both => [u|] [v|].
by rewrite (NuFFTNarrowSpec.forward_cached toC pi KbNufft x built not_both') ktE.
Qed.

(** X13: caching the coordinates at construction and calling without
    them returns what a layer constructed without them returns when the
    same coordinates are supplied to the call. *)
Theorem cache_equals_call cs np co uu vv self1 self2 x :
  new cs np co (Some uu) (Some vv) = inr self1 ->
  new cs np co None None = inr self2 ->
  (forward x None None self1).1 = (forward x (Some uu) (Some vv) self2).1.
Proof.
move=> /new_cases [g [fE -> sz]] /new_cases [g' [fE' -> _]].
move: fE'; rewrite fE => -[<-].
set s1 := Layer _ _ (Some _); set s2 := Layer _ _ None.
have b1 : constructed g s1 by [].
have b2 : constructed g s2 by [].
rewrite (NuFFTNarrowSpec.forward_cached toC pi KbNufft x (uu := None)
           (vv := None) b1) //=.
by rewrite (NuFFTNarrowSpec.forward_supplied toC pi KbNufft x uu vv b2)
           NuFFTNarrowSpec.tensor_of_ktraj.
Qed.

(** X14: the trajectory is linear in the coordinates: scaling every [u]
    and [v] by [a] (by [-1]: the conjugate samples) scales every entry of
    the trajectory by [a]. *)
Theorem assemble_ktraj_scale self g (a : R) uu vv :
  coords self = Some g ->
  _assemble_ktraj [seq a * u | u <- uu] [seq a * v | v <- vv] self
  = (match (_assemble_ktraj uu vv self).1 with
     | inr kt => inr (map2 ( *%R a) kt)
     | inl e => inl e
     end, self).
Proof.
move=> cE; rewrite !(NuFFTNarrowSpec.assemble_ktrajE _ _ _ cE) /=.
rewrite /tensor_of_rows /= !size_map; case: ifP => // _.
congr (inr _, _); rewrite /Spec.ktraj_vu /map2 /= -!map_comp.
by congr [:: _; _]; apply: eq_map => k /=; rewrite /Spec.radpix !mulrA.
Qed.

(** X15: on the same grid arguments the two constructors agree: without
    coordinate arrays, [NuFFTNarrow] is constructed exactly when
    [FourierCube] is constructed with [coords], on the same grid; where
    [FourierCube] returns a layer without [coords], [NuFFTNarrow] raises
    [AttributeError]. *)
Theorem constructors_agree cs np co :
  new cs np co None None =
  match fourier_new cs np co with
  | inl e => inl e
  | inr f =>
      if FourierCube.coords f is Some g
      then inr (Layer (Some g) (Some (npix g, npix g)) None)
      else inl (Py.AttributeError "coords")
  end.
Proof. by rewrite nufft_newE; case: (fourier_new cs np co) => [e|[[g|] v]]. Qed.

End State.

End NuFFTNarrowMore.

(** ** The further properties at work on the rational engine *)

Module MoreWitnesses.

Import Coordinates Torch TorchFacts RatEngine.

Local Notation toC_morph := (idfun : {rmorphism rat -> rat}).

Lemma views_before_forward_witness :
  FourierCube.new rat GridCoords_init None None (Some grid2)
  = inr fourier_layer /\
  [/\ FourierCube.ground_vis fourier_layer
        = (inl (Py.AttributeError "ground_vis"), fourier_layer),
      FourierCube.ground_amp cabs fourier_layer
        = (inl (Py.AttributeError "ground_amp"), fourier_layer)
    & FourierCube.ground_phase cangle fourier_layer
        = (inl (Py.AttributeError "ground_phase"), fourier_layer)].
Proof.
split; first reflexivity.
apply: (@FourierCubeMore.views_before_forward _ _ cabs cangle GridCoords_init
          None None (Some grid2) fourier_layer).
reflexivity.
Defined.

Lemma new_falsy_arguments_witness :
  ~~ Py.truthy_num (Some (0 : int)) /\ ~~ Py.truthy_num (Some (0 : rat)) /\
  FourierCube.new rat GridCoords_init (Some 0) (Some 0) None
  = inr (FourierCube.empty rat rat).
Proof.
split; [reflexivity | split; [reflexivity |]].
apply: (@FourierCubeMore.new_falsy_arguments _ rat GridCoords_init
          (Some 0) (Some 0)); reflexivity.
Defined.

Lemma forward_linear_witness :
  (0 < 2)%N /\ FourierCube.coords fourier_layer = Some grid2 /\
  has_shape3 1 2 2 cube2 /\ has_shape3 1 2 2 cube2b /\
  exists vx vy,
    [/\ (FourierCube.forward toC_morph tw (Tensor (dim := 3) cube2)
           fourier_layer).1 = inr vx,
        (FourierCube.forward toC_morph tw (Tensor (dim := 3) cube2b)
           fourier_layer).1 = inr vy
      & (FourierCube.forward toC_morph tw
           (Tensor (dim := 3) (add3 (map3 ( *%R 3%:R) cube2) cube2b))
           fourier_layer).1
        = inr (add3 (scale3 (toC_morph 3%:R) vx) vy)].
Proof.
split; [reflexivity | split; [reflexivity |]].
split; [reflexivity | split; [reflexivity |]].
apply: (@FourierCubeTransform.forward_linear _ _ toC_morph tw fourier_layer
          grid2 1 2 3%:R cube2 cube2b); reflexivity.
Defined.

Lemma forward_zero_frequency_witness :
  (0 < 2)%N /\ FourierCube.coords fourier_layer = Some grid2 /\
  has_shape3 1 2 2 cube2 /\
  exists2 v,
    (FourierCube.forward toC_morph tw (Tensor (dim := 3) cube2)
       fourier_layer).1 = inr v &
    forall c, (c < 1)%N ->
      nth 0 (nth [::] (nth [::] v c) 0) 0
      = toC_morph (cell_size grid2 ^+ 2) *
        \sum_(i < 2) \sum_(j < 2)
          toC_morph (nth 0 (nth [::] (nth [::] cube2 c) i) j).
Proof.
split; [reflexivity | split; [reflexivity | split; [reflexivity |]]].
apply: (@FourierCubeTransform.forward_zero_frequency _ _ toC_morph tw
          fourier_layer grid2 1 2 cube2); reflexivity.
Defined.

Lemma forward_constant_image_witness :
  2.-primitive_root (tw 2) /\
  FourierCube.coords fourier_layer = Some grid2 /\
  (FourierCube.forward toC_morph tw
     (Tensor (dim := 3) (nseq 1 (nseq 2 (nseq 2 (3%:R : rat)))))
     fourier_layer).1
  = inr (nseq 1
      (tabulate2 (fun k1 k2 =>
         if (k1 == 0%N) && (k2 == 0%N)
         then toC_morph (cell_size grid2 ^+ 2) * (toC_morph 3%:R * 2%:R ^+ 2)
         else 0) 2 2)).
Proof.
split; [exact: Witnesses.tw2_primitive | split; [reflexivity |]].
apply: (@FourierCubeTransform.forward_constant_image _ _ toC_morph tw
          fourier_layer grid2 1 2 3%:R); last reflexivity.
exact: Witnesses.tw2_primitive.
Defined.

Lemma forward_point_source_witness :
  FourierCube.coords fourier_layer = Some grid2 /\ (1 < 2)%N /\ (0 < 2)%N /\
  (FourierCube.forward toC_morph tw
     (Tensor (dim := 3)
        (nseq 1
           (tabulate2
              (fun i j => if (i == 1%N) && (j == 0%N) then (1 : rat) else 0)
              2 2)))
     fourier_layer).1
  = inr (nseq 1
      (tabulate2 (fun k1 k2 =>
         toC_morph (cell_size grid2 ^+ 2)
         * (toC_morph 1 * (tw 2 ^+ (1 * k1) * tw 2 ^+ (0 * k2)))) 2 2)).
Proof.
split; [reflexivity | split; [reflexivity | split; [reflexivity |]]].
apply: (@FourierCubeTransform.forward_point_source _ _ toC_morph tw
          fourier_layer grid2 1 2 1 1 0); reflexivity.
Defined.

Lemma ground_vis_centre_witness :
  (0 < 2)%N /\ FourierCube.coords fourier_layer = Some grid2 /\
  has_shape3 1 2 2 cube2 /\
  let self' :=
    (FourierCube.forward toC_morph tw (Tensor (dim := 3) cube2)
       fourier_layer).2 in
  exists2 gv, FourierCube.ground_vis self' = (inr gv, self') &
    forall c, (c < 1)%N ->
      nth 0 (nth [::] (nth [::] gv c) (2 %/ 2)) (2 %/ 2)
      = toC_morph (cell_size grid2 ^+ 2) *
        \sum_(i < 2) \sum_(j < 2)
          toC_morph (nth 0 (nth [::] (nth [::] cube2 c) i) j).
Proof.
split; [reflexivity | split; [reflexivity | split; [reflexivity |]]].
apply: (@FourierCubeTransform.ground_vis_centre _ _ toC_morph tw
          fourier_layer grid2 1 2 cube2); reflexivity.
Defined.

Lemma fftshift_even_witness :
  ~~ odd 2 /\ ~~ odd 2 /\ has_shape3 1 2 2 cube2 /\
  fftshift (fftshift cube2) = cube2.
Proof.
split; [reflexivity | split; [reflexivity | split; [reflexivity |]]].
apply: (@TorchMore.fftshift_even _ 1 2 2 cube2); reflexivity.
Defined.

Lemma new_plain_layer :
  NuFFTNarrow.new pi GridCoords_init None None (Some grid2) None None
  = inr (NuFFTNarrow.Layer (Some grid2) (Some (2%N, 2%N)) None).
Proof. reflexivity. Defined.

Lemma new_cached_layer :
  NuFFTNarrow.new pi GridCoords_init None None (Some grid2)
    (Some uu2) (Some vv2)
  = inr (NuFFTNarrow.Layer (Some grid2) (Some (2%N, 2%N))
           (Some (Spec.ktraj_vu pi grid2 uu2 vv2))).
Proof. by rewrite (NuFFTNarrowMore.nufft_newE rat). Qed.

Lemma new_establishes_witness :
  NuFFTNarrow.new pi GridCoords_init None None (Some grid2)
    (Some uu2) (Some vv2)
  = inr (NuFFTNarrow.Layer (Some grid2) (Some (2%N, 2%N))
           (Some (Spec.ktraj_vu pi grid2 uu2 vv2))) /\
  exists g,
    [/\ NuFFTNarrow.constructed g
          (NuFFTNarrow.Layer (Some grid2) (Some (2%N, 2%N))
             (Some (Spec.ktraj_vu pi grid2 uu2 vv2))),
        grid2 = g
      & Some (Spec.ktraj_vu pi grid2 uu2 vv2)
        = Some (Spec.ktraj_vu pi g uu2 vv2)].
Proof.
split; first exact: new_cached_layer.
apply: (NuFFTNarrowMore.new_establishes rat (pi := pi)
          (GridCoords_init := GridCoords_init) (cs := None) (np := None)
          (co := Some grid2) (ouu := Some uu2) (ovv := Some vv2)).
exact: new_cached_layer.
Defined.

Lemma forward_without_trajectory_witness :
  NuFFTNarrow.new pi GridCoords_init None None (Some grid2) None None
  = inr (NuFFTNarrow.Layer (Some grid2) (Some (2%N, 2%N)) None) /\
  ~~ ((None : option (seq rat)) && (None : option (seq rat))) /\
  ~~ (Some uu2 && (None : option (seq rat))) /\
  NuFFTNarrow.forward toC pi KbNufft cube2 (Some uu2) None
    (NuFFTNarrow.Layer (Some grid2) (Some (2%N, 2%N)) None)
  = (inl (Py.AttributeError "k_traj"),
     NuFFTNarrow.Layer (Some grid2) (Some (2%N, 2%N)) None).
Proof.
split; [reflexivity | split; [reflexivity | split; [reflexivity |]]].
apply: (NuFFTNarrowMore.forward_without_trajectory toC KbNufft cube2
          (pi := pi) (GridCoords_init := GridCoords_init) (cs := None)
          (np := None) (co := Some grid2) (ouu := None) (ovv := None));
  reflexivity.
Defined.

Lemma cache_equals_call_witness :
  NuFFTNarrow.new pi GridCoords_init None None (Some grid2)
    (Some uu2) (Some vv2)
  = inr (NuFFTNarrow.Layer (Some grid2) (Some (2%N, 2%N))
           (Some (Spec.ktraj_vu pi grid2 uu2 vv2))) /\
  NuFFTNarrow.new pi GridCoords_init None None (Some grid2) None None
  = inr (NuFFTNarrow.Layer (Some grid2) (Some (2%N, 2%N)) None) /\
  (NuFFTNarrow.forward toC pi KbNufft cube2 None None
     (NuFFTNarrow.Layer (Some grid2) (Some (2%N, 2%N))
        (Some (Spec.ktraj_vu pi grid2 uu2 vv2)))).1
  = (NuFFTNarrow.forward toC pi KbNufft cube2 (Some uu2) (Some vv2)
       (NuFFTNarrow.Layer (Some grid2) (Some (2%N, 2%N)) None)).1.
Proof.
split; [exact: new_cached_layer | split; [reflexivity |]].
apply: (NuFFTNarrowMore.cache_equals_call toC KbNufft cube2 (pi := pi)
          (GridCoords_init := GridCoords_init) (cs := None) (np := None)
          (co := Some grid2)).
- exact: new_cached_layer.
- reflexivity.
Defined.

Lemma assemble_ktraj_scale_witness :
  NuFFTNarrow.coords nufft_layer = Some grid2 /\
  NuFFTNarrow._assemble_ktraj pi [seq -1 * u | u <- uu2]
    [seq -1 * v | v <- vv2] nufft_layer
  = (match (NuFFTNarrow._assemble_ktraj pi uu2 vv2 nufft_layer).1 with
     | inr kt => inr (map2 ( *%R (-1)) kt)
     | inl e => inl e
     end, nufft_layer).
Proof.
split; first reflexivity.
apply: (@NuFFTNarrowMore.assemble_ktraj_scale _ pi nufft_layer grid2 (-1)
          uu2 vv2).
reflexivity.
Defined.

End MoreWitnesses.
